(** * thumbnailer: identifier extraction, asset fetcher and directory scanner

    A shallow embedding of [thumbnailer.py].  Python [str] values are
    [string]s whose characters are code points below 256; the patterns of the
    program only name ASCII characters, so a character outside that range
    behaves like any other character that is in no class.  The library
    functions the program calls ([pathlib], [re], [str] methods,
    [subprocess.run], [tempfile]) are modelled next to the program, each
    under the name it has in Python. *)

From Stdlib Require Import Ascii String ZArith Lia.
From stdpp Require Import gmap strings list fin_maps sorting pretty.

Open Scope string_scope.
Open Scope list_scope.
Open Scope nat_scope.

(** ** Python strings *)

Module PyStr.

Abbreviation chars := String.list_ascii_of_string.
Abbreviation str := String.string_of_list_ascii.

Definition LF : ascii := ascii_of_nat 10.
Definition CR : ascii := ascii_of_nat 13.

Definition code (c : ascii) : N := N_of_ascii c.

Definition between (lo hi : N) (c : ascii) : bool :=
  ((lo <=? code c) && (code c <=? hi))%N.

(** [str.isspace] on a single character. *)
Definition isspace (c : ascii) : bool :=
  between 9 13 c || between 28 32 c
  || bool_decide (code c = 133%N) || bool_decide (code c = 160%N).

(** [str.lower] on a single character: A-Z, and the upper-case letters
    of the Latin-1 block (0xC0-0xDE without the multiplication sign). *)
Definition lower_char (c : ascii) : ascii :=
  if between 65 90 c
     || (between 192 222 c && negb (bool_decide (code c = 215%N)))
  then ascii_of_N (code c + 32) else c.

Definition lower (s : string) : string := str (map lower_char (chars s)).

(** [s.lstrip()], [s.rstrip()], [s.strip()] without argument. *)
Fixpoint lstrip_chars (l : list ascii) : list ascii :=
  match l with
  | c :: rest => if isspace c then lstrip_chars rest else l
  | [] => []
  end.

Definition strip_chars (l : list ascii) : list ascii :=
  reverse (lstrip_chars (reverse (lstrip_chars l))).

Definition strip (s : string) : string := str (strip_chars (chars s)).

(** A line boundary of [str.splitlines] made of one character; the
    two-character boundary CR LF is handled in [splitlines_chars]. *)
Definition is_linebreak (c : ascii) : bool :=
  between 10 13 c || between 28 30 c || bool_decide (code c = 133%N).

(** [s.splitlines()]: [cur] holds the characters of the line being read,
    last character first. *)
Fixpoint splitlines_chars (l cur : list ascii) : list (list ascii) :=
  match l with
  | [] => match cur with [] => [] | _ => [reverse cur] end
  | c :: rest =>
      if bool_decide (c = CR) then
        match rest with
        | c' :: rest' =>
            if bool_decide (c' = LF)
            then reverse cur :: splitlines_chars rest' []
            else reverse cur :: splitlines_chars rest []
        | [] => reverse cur :: splitlines_chars rest []
        end
      else if is_linebreak c then reverse cur :: splitlines_chars rest []
      else splitlines_chars rest (c :: cur)
  end.

Definition splitlines (s : string) : list string :=
  str <$> splitlines_chars (chars s) [].

(** [l[-n:]] for a positive [n]. *)
Definition last_n {A} (n : nat) (l : list A) : list A :=
  drop (length l - n) l.

(** [s.split(sep)] for a one-character separator. *)
Fixpoint split_on (sep : ascii) (l : list ascii) : list (list ascii) :=
  match l with
  | [] => [[]]
  | c :: rest =>
      if bool_decide (c = sep) then [] :: split_on sep rest
      else match split_on sep rest with
           | h :: t => (c :: h) :: t
           | [] => [[c]]
           end
  end.

(** [s.rfind(c)]: the highest index of [c], or -1. *)
Fixpoint rfind (c : ascii) (l : list ascii) : Z :=
  match l with
  | [] => -1
  | x :: rest =>
      let i := rfind c rest in
      if (0 <=? i)%Z then (i + 1)%Z
      else if bool_decide (x = c) then 0%Z else (-1)%Z
  end.

(** [c * n] *)
Fixpoint repeat_str (c : string) (n : nat) : string :=
  match n with O => "" | S k => c +:+ repeat_str c k end.

End PyStr.

(** ** pathlib (POSIX flavour) *)

Module PathLib.
Import PyStr.

(** [PurePosixPath(p).parts] without the root: empty components and
    single dots are dropped when a path is parsed. *)
Definition tail_parts (p : list ascii) : list (list ascii) :=
  filter (λ x, x ≠ [] ∧ x ≠ chars ".") (split_on "/" p).

(** [Path(p).name]: the final component, or the empty string. *)
Definition name_chars (p : list ascii) : list ascii :=
  default [] (last (tail_parts p)).

Definition name (p : string) : string := str (name_chars (chars p)).

(** [Path.suffix] and [Path.stem], from the name (the rule of pathlib
    up to Python 3.13):
<<
    i = name.rfind('.')
    if 0 < i < len(name) - 1: return name[i:]   # stem: name[:i]
    else: return ''                             # stem: name
>> *)
Definition has_suffix (nm : list ascii) : bool :=
  let i := rfind "." nm in
  ((0 <? i) && (i <? Z.of_nat (length nm) - 1))%Z.

Definition suffix_chars (nm : list ascii) : list ascii :=
  if has_suffix nm then drop (Z.to_nat (rfind "." nm)) nm else [].

Definition stem_chars (nm : list ascii) : list ascii :=
  if has_suffix nm then take (Z.to_nat (rfind "." nm)) nm else nm.

Definition suffix (p : string) : string :=
  str (suffix_chars (name_chars (chars p))).

Definition stem (p : string) : string :=
  str (stem_chars (name_chars (chars p))).

Definition ends_with_slash (p : string) : bool :=
  bool_decide (last (chars p) = Some "/"%char).

(** [os.path.join(a, b)] for a relative [b]; also [Path(a) / b]. *)
Definition joinpath (a b : string) : string :=
  if bool_decide (a = "") || ends_with_slash a then a +:+ b
  else a +:+ "/" +:+ b.

(** [Path.parent] of a normalized absolute path. *)
Definition parent (p : string) : string :=
  let i := rfind "/" (chars p) in
  if (0 <? i)%Z then str (take (Z.to_nat i) (chars p))
  else if (i =? 0)%Z then "/" else ".".

(** What is left of [l] after the prefix [pre], if [l] starts with it. *)
Fixpoint strip_prefix (pre l : list ascii) : option (list ascii) :=
  match pre, l with
  | [], _ => Some l
  | c :: pre', x :: l' =>
      if bool_decide (c = x) then strip_prefix pre' l' else None
  | _ :: _, [] => None
  end.

(** The path of [p] relative to the directory [d], when [p] lies below
    [d] and is not [d] itself. *)
Definition relative_to (d p : string) : option (list ascii) :=
  match strip_prefix (chars (joinpath d "")) (chars p) with
  | Some (c :: rest) => Some (c :: rest)
  | _ => None
  end.

Definition is_below (d p : string) : bool :=
  bool_decide (is_Some (relative_to d p)).

Definition is_child (d p : string) : bool :=
  match relative_to d p with
  | Some rest => bool_decide ("/"%char ∉ rest)
  | None => false
  end.

(** The order of [sorted] on paths: component by component, characters
    by code point. *)
Fixpoint chars_leb (a b : list ascii) : bool :=
  match a, b with
  | [], _ => true
  | _ :: _, [] => false
  | x :: a', y :: b' =>
      if (code x <? code y)%N then true
      else if (code y <? code x)%N then false
      else chars_leb a' b'
  end.

Fixpoint parts_leb (a b : list (list ascii)) : bool :=
  match a, b with
  | [], _ => true
  | _ :: _, [] => false
  | x :: a', y :: b' =>
      if bool_decide (x = y) then parts_leb a' b' else chars_leb x y
  end.

Definition path_le (a b : string) : Prop :=
  parts_leb (split_on "/" (chars a)) (split_on "/" (chars b)) = true.

#[global] Instance path_le_dec a b : Decision (path_le a b).
Proof. unfold path_le. apply _. Defined.

Definition sorted (l : list string) : list string := merge_sort path_le l.

End PathLib.

(** ** re: a backtracking matcher for the operators the program uses *)

Module Re.
Import PyStr.

Inductive cls_item :=
| One (c : ascii)
| Range (lo hi : ascii).

Inductive regex :=
| Lit (c : ascii)                 (* an escaped or plain character *)
| Cls (items : list cls_item)     (* [...] *)
| Bol                             (* ^ *)
| Eol                             (* $ *)
| Cat (r1 r2 : regex)
| Alt (r1 r2 : regex)             (* r1|r2 *)
| Rep (n : nat) (r : regex)       (* r{n} *)
| Grp (r : regex)                 (* ( r ), the only capturing group *).

Definition in_item (c : ascii) (it : cls_item) : bool :=
  match it with
  | One x => bool_decide (c = x)
  | Range lo hi => between (code lo) (code hi) c
  end.

Definition in_class (items : list cls_item) (c : ascii) : bool :=
  existsb (in_item c) items.

(** A matcher state: the position reached and the span of group 1. *)
Definition mstate : Type := nat * option (nat * nat).

(** [$] without MULTILINE: at the end of the string, and also just
    before a newline that is the last character. *)
Definition at_eol (s : list ascii) (i : nat) : bool :=
  bool_decide (i = length s)
  || (bool_decide (S i = length s) && bool_decide (s !! i = Some LF)).

Definition step_char (p : ascii → bool) (s : list ascii) (st : mstate)
  : list mstate :=
  match s !! st.1 with
  | Some c => if p c then [(S st.1, st.2)] else []
  | None => []
  end.

(** All the ways [r] matches [s] from state [st], in the order in which
    the backtracking matcher tries them: the head is the match taken. *)
Fixpoint run (r : regex) (s : list ascii) (st : mstate) : list mstate :=
  match r with
  | Lit c => step_char (λ x, bool_decide (x = c)) s st
  | Cls items => step_char (in_class items) s st
  | Bol => if bool_decide (st.1 = 0) then [st] else []
  | Eol => if at_eol s st.1 then [st] else []
  | Cat r1 r2 => run r1 s st ≫= run r2 s
  | Alt r1 r2 => run r1 s st ++ run r2 s st
  | Rep n r1 => Nat.iter n (λ acc, acc ≫= run r1 s) [st]
  | Grp r1 => (λ st', (st'.1, Some (st.1, st'.1))) <$> run r1 s st
  end.

Record Match := { m_start : nat; m_end : nat; m_span1 : option (nat * nat) }.

Definition match_at (r : regex) (s : list ascii) (i : nat) : list Match :=
  (λ st : mstate, {| m_start := i; m_end := st.1; m_span1 := st.2 |})
    <$> run r s (i, None).

(** [pattern.search(s)]: the first start position, from the left, at
    which the pattern matches. *)
Definition search_chars (r : regex) (s : list ascii) : option Match :=
  head (seq 0 (S (length s)) ≫= match_at r s).

Definition search (r : regex) (s : string) : option Match :=
  search_chars r (chars s).

(** [m.group(1)]: [None] when the group took no part in the match. *)
Definition group1 (s : string) (m : Match) : option string :=
  (λ sp : nat * nat, str (take (sp.2 - sp.1) (drop sp.1 (chars s))))
    <$> m_span1 m.

End Re.

Import PyStr Re.

(** ** The world outside the program: files, console, processes *)

Inductive node :=
| File (content : string)
| Dir.

Inductive exn :=
| OSError (kind : string)          (* FileNotFoundError, PermissionError, ... *)
| AttributeError (msg : string).

(** What reaches the console: the lines the program prints, and what a
    child process writes to the streams it inherits. *)
Inductive output :=
| Print (line : string)
| Inherited (out err : string).

Record World := mkWorld {
  fs : gmap string node;            (* path to node *)
  console : list output;
  launched : list (list string);    (* the commands handed to subprocess.run *)
}.

(** What a command does when it is started on a file system. *)
Record Exit := mkExit {
  exit_code : Z;
  out_text : string;
  err_text : string;
  fs_after : gmap string node;
}.

Inductive launch :=
| CannotStart (e : exn)            (* the command could not be executed *)
| Runs (x : Exit).

(** The two things the program does not decide: how commands behave,
    and which name a new temporary directory gets. *)
Record Host := mkHost {
  exec : list string → gmap string node → launch;
  mkdtemp : gmap string node → string;
}.

(** Computations of the program: they return or raise, and change the world. *)
Inductive result (A : Type) :=
| Ok (a : A)
| Raise (e : exn).
Arguments Ok {A} a.
Arguments Raise {A} e.

Definition M (A : Type) : Type := World → result A * World.

#[global] Instance M_ret : MRet M := λ A a w, (Ok a, w).

#[global] Instance M_bind : MBind M := λ A B f m w,
  match m w with
  | (Ok a, w') => f a w'
  | (Raise e, w') => (Raise e, w')
  end.

Definition raise {A} (e : exn) : M A := λ w, (Raise e, w).

Definition emit (o : output) (w : World) : World :=
  mkWorld (fs w) (console w ++ [o]) (launched w).

Definition emits (outs : list output) (w : World) : World :=
  mkWorld (fs w) (console w ++ outs) (launched w).

Definition set_fs (f : gmap string node) (w : World) : World :=
  mkWorld f (console w) (launched w).

(** [print(line)] *)
Definition print (line : string) : M unit := λ w, (Ok tt, emit (Print line) w).

(** [for x in l: body(x)] *)
Fixpoint for_each {A} (l : list A) (body : A → M unit) : M unit :=
  match l with
  | [] => mret tt
  | x :: rest => body x ;; for_each rest body
  end.

Definition is_file (f : gmap string node) (p : string) : bool :=
  match f !! p with Some (File _) => true | _ => false end.

(** [Path.exists()] *)
Definition path_exists (f : gmap string node) (p : string) : bool :=
  bool_decide (is_Some (f !! p)).

(** [Path(d).iterdir()], in the order the file system lists them. *)
Definition iterdir (f : gmap string node) (d : string) : list string :=
  filter (λ p, PathLib.is_child d p = true) (map_to_list f).*1.

(** [Path(d).glob(pattern)] for the two patterns the program uses. *)
Definition glob (f : gmap string node) (d pattern : string) : list string :=
  if bool_decide (pattern = "*") then iterdir f d
  else if bool_decide (pattern = "**/*")
       then filter (λ p, PathLib.is_below d p = true) (map_to_list f).*1
       else [].

(** Removing a directory with all that is below it. *)
Definition rmtree (d : string) (f : gmap string node) : gmap string node :=
  filter (λ kv, kv.1 ≠ d ∧ PathLib.is_below d kv.1 = false) f.

Record CompletedProcess := mkCompleted {
  returncode : Z;
  stdout : option string;         (* None when not captured *)
  stderr : option string;
}.

Section host.
Variable host : Host.

(** [subprocess.run(cmd, capture_output=capture, text=True)] *)
Definition subprocess_run (cmd : list string) (capture : bool)
  : M CompletedProcess := λ w,
  let w1 := mkWorld (fs w) (console w) (launched w ++ [cmd]) in
  match exec host cmd (fs w) with
  | CannotStart e => (Raise e, w1)
  | Runs x =>
      let w2 := set_fs (fs_after x) w1 in
      if capture
      then (Ok (mkCompleted (exit_code x) (Some (out_text x)) (Some (err_text x))), w2)
      else (Ok (mkCompleted (exit_code x) None None),
            emit (Inherited (out_text x) (err_text x)) w2)
  end.

(** [with tempfile.TemporaryDirectory() as tmpdir: body]: the directory
    is removed when the block is left, normally or by an exception. *)
Definition with_TemporaryDirectory {A} (body : string → M A) : M A := λ w,
  let tmpdir := mkdtemp host (fs w) in
  let (r, w') := body tmpdir (set_fs (<[tmpdir := Dir]> (fs w)) w) in
  (r, set_fs (rmtree tmpdir (fs w')) w').

End host.

Definition get_fs : M (gmap string node) := λ w, (Ok (fs w), w).

(** [o.strip()] for an attribute that is [None] when nothing was captured. *)
Definition strip_of (o : option string) : M string :=
  match o with
  | Some s => mret (strip s)
  | None => raise (AttributeError "'NoneType' object has no attribute 'strip'")
  end.

(** ** The program *)

Definition VIDEO_EXTENSIONS : gset string :=
  list_to_set
    [ ".mp4"; ".mkv"; ".avi"; ".mov"; ".wmv"; ".flv";
      ".webm"; ".m4v"; ".ts"; ".m2ts"; ".3gp"; ".ogv" ].

(** The class [[a-zA-Z0-9_-]]. *)
Definition ID_CLASS : list cls_item :=
  [ Range "a" "z"; Range "A" "Z"; Range "0" "9"; One "_"; One "-" ].

(** [re.compile(r"\[([a-zA-Z0-9_-]{11})\]")] *)
Definition _BRACKETED_RE : regex :=
  Cat (Lit "[") (Cat (Grp (Rep 11 (Cls ID_CLASS))) (Lit "]")).

(** [re.compile(r"(?:^|[-_. (])([a-zA-Z0-9_-]{11})$")] *)
Definition _TRAILING_RE : regex :=
  Cat (Alt Bol (Cls [One "-"; One "_"; One "."; One " "; One "("]))
      (Cat (Grp (Rep 11 (Cls ID_CLASS))) Eol).

Definition extract_youtube_id (filename : string) : option string :=
  let stem := PathLib.stem filename in
  match search _BRACKETED_RE stem with
  | Some m => group1 stem m
  | None =>
      match search _TRAILING_RE stem with
      | Some m => group1 stem m
      | None => None
      end
  end.

Section program.
Variable host : Host.

Definition download_thumbnail (video_id output_path : string) (verbose : bool)
  : M bool :=
  let url := "https://www.youtube.com/watch?v=" +:+ video_id in
  with_TemporaryDirectory host (λ tmpdir,
    let output_template := PathLib.joinpath tmpdir "thumb" in
    let yt_cmd :=
      [ "yt-dlp"; "--write-thumbnail"; "--skip-download"; "--no-playlist";
        "-o"; output_template; url ] in
    let capture := negb verbose in
    yt_result ← subprocess_run host yt_cmd capture;
    f ← get_fs;
    let candidates := filter (λ p, is_file f p = true) (iterdir f tmpdir) in
    match candidates with
    | [] =>
        print "    [yt-dlp] No thumbnail file written." ;;
        (if capture then
           err ← strip_of (stderr yt_result);
           if bool_decide (err ≠ "") then
             for_each (splitlines err) (λ line, print ("    [yt-dlp] " +:+ line))
           else mret tt
         else mret tt) ;;
        mret false
    | thumb_file :: _ =>
        let ff_cmd := [ "ffmpeg"; "-y"; "-i"; thumb_file; output_path ] in
        ff_result ← subprocess_run host ff_cmd capture;
        if bool_decide (returncode ff_result ≠ 0%Z) then
          print ("    [ffmpeg] Conversion failed (exit "
                 +:+ pretty (returncode ff_result) +:+ ")") ;;
          (if capture then
             err ← strip_of (stderr ff_result);
             if bool_decide (err ≠ "") then
               let tail := last_n 5 (splitlines err) in
               for_each tail (λ line, print ("    [ffmpeg] " +:+ line))
             else mret tt
           else mret tt) ;;
          mret false
        else mret true
    end).

Record Counts := mkCounts { processed : nat; skipped : nat; failed : nat }.

Definition is_video_file (f : gmap string node) (p : string) : bool :=
  is_file f p && bool_decide (lower (PathLib.suffix p) ∈ VIDEO_EXTENSIONS).

(** The sorted list [video_files] of [scan_directory]. *)
Definition video_files (f : gmap string node) (directory : string)
    (recursive : bool) : list string :=
  let pattern := if recursive then "**/*" else "*" in
  PathLib.sorted (filter (λ p, is_video_file f p = true) (glob f directory pattern)).

(** The body of the loop [for video_file in video_files], from the
    counters before the file to the counters after it. *)
Definition scan_file (dry_run skip_existing verbose : bool)
    (video_file : string) (c : Counts) : M Counts :=
  let no_id : M Counts :=
    print ("  SKIP  " +:+ PathLib.name video_file) ;;
    print "        Reason : no YouTube ID detected in filename" ;;
    print "" ;;
    mret (mkCounts (processed c) (skipped c + 1) (failed c)) in
  match extract_youtube_id (PathLib.name video_file) with
  | None => no_id
  | Some video_id =>
      if bool_decide (video_id = "") then no_id else
      let poster_path :=
        PathLib.joinpath (PathLib.parent video_file)
                         (PathLib.stem video_file +:+ "-poster.jpg") in
      f ← get_fs;
      if skip_existing && path_exists f poster_path then
        print ("  SKIP  " +:+ PathLib.name video_file) ;;
        print ("        Reason : poster already exists ("
               +:+ PathLib.name poster_path +:+ ")") ;;
        print "" ;;
        mret (mkCounts (processed c) (skipped c + 1) (failed c))
      else
        print ("  PROC  " +:+ PathLib.name video_file) ;;
        print ("        ID     : " +:+ video_id) ;;
        print ("        Output : " +:+ poster_path) ;;
        if dry_run then
          print "        [dry run — skipping download]" ;;
          print "" ;;
          mret (mkCounts (processed c) (skipped c + 1) (failed c))
        else
          success ← download_thumbnail video_id poster_path verbose;
          if (success : bool) then
            print "        Status : OK" ;;
            print "" ;;
            mret (mkCounts (processed c + 1) (skipped c) (failed c))
          else
            print "        Status : FAILED" ;;
            print "" ;;
            mret (mkCounts (processed c) (skipped c) (failed c + 1))
  end.

Fixpoint scan_loop (dry_run skip_existing verbose : bool)
    (files : list string) (c : Counts) : M Counts :=
  match files with
  | [] => mret c
  | video_file :: rest =>
      c' ← scan_file dry_run skip_existing verbose video_file c;
      scan_loop dry_run skip_existing verbose rest c'
  end.

Definition summary_line (c : Counts) : string :=
  "Done.  Processed: " +:+ pretty (processed c)
  +:+ "  Skipped: " +:+ pretty (skipped c)
  +:+ "  Failed: " +:+ pretty (failed c).

Definition scan_directory (directory : string)
    (recursive dry_run skip_existing verbose : bool) : M unit :=
  f ← get_fs;
  let files := video_files f directory recursive in
  match files with
  | [] => print "No video files found."
  | _ :: _ =>
      print ("Found " +:+ pretty (length files) +:+ " video file(s)."
             +:+ String LF "") ;;
      c ← scan_loop dry_run skip_existing verbose files (mkCounts 0 0 0);
      let summary := summary_line c in
      print (repeat_str "-" (String.length summary)) ;;
      print summary
  end.

End program.

(** ** Vocabulary of the specification *)

(** An identifier: exactly 11 characters of the class [[A-Za-z0-9_-]]. *)
Definition is_id_chars (l : list ascii) : bool :=
  bool_decide (length l = 11) && forallb (in_class ID_CLASS) l.

Definition is_id (tok : string) : bool := is_id_chars (chars tok).

(** The separators that may precede a trailing identifier. *)
Definition is_separator (c : ascii) : bool :=
  in_class [One "-"; One "_"; One "."; One " "; One "("] c.

(** A bracketed identifier starts at position [i] of [s]. *)
Definition bracketed_at (s : list ascii) (i : nat) : bool :=
  bool_decide (s !! i = Some "["%char)
  && is_id_chars (take 11 (drop (S i) s))
  && bool_decide (s !! (i + 12) = Some "]"%char).

(** An identifier starts at [j] and runs to where [$] matches. *)
Definition trailing_from (s : list ascii) (j : nat) : bool :=
  is_id_chars (take 11 (drop j s)) && at_eol s (j + 11).

(** A separator stands at position [i] of [s]. *)
Definition separator_at (s : list ascii) (i : nat) : bool :=
  match s !! i with Some c => is_separator c | None => false end.

(** Where a trailing identifier starts, the start of the string or a
    separator stands before it. *)
Definition preceded (s : list ascii) (j : nat) : Prop :=
  j = 0 ∨ ∃ i, j = S i ∧ separator_at s i = true.

(** The final 11 characters of [s] (all of [s] when it is shorter). *)
Definition last11 (s : string) : string := str (last_n 11 (chars s)).

(** [s] holds no identifier between brackets. *)
Definition no_bracketed (s : string) : Prop :=
  ∀ pre tok post : string,
    s = pre +:+ "[" +:+ tok +:+ "]" +:+ post → is_id tok = false.

(** The final 11 characters of [s] are an identifier, and what stands
    before them is the start of [s] or a separator. *)
Definition trailing_id (s : string) : Prop :=
  is_id (last11 s) = true
  ∧ (String.length s = 11
     ∨ ∃ c, chars s !! (String.length s - 12) = Some c
            ∧ 12 ≤ String.length s ∧ is_separator c = true).

(** ** Vocabulary for the fetcher and the scanner *)

(** The asset of a video file: [<stem>-poster.jpg] beside it. *)
Definition poster_of (video_file : string) : string :=
  PathLib.joinpath (PathLib.parent video_file)
                   (PathLib.stem video_file +:+ "-poster.jpg").

(** [w'] differs from [w] by console output at most: no file was
    touched and no command was launched. *)
Definition only_printed (w w' : World) : Prop :=
  fs w' = fs w ∧ launched w' = launched w.

(** The two commands of the fetcher. *)
Definition yt_command (tmpdir video_id : string) : list string :=
  [ "yt-dlp"; "--write-thumbnail"; "--skip-download"; "--no-playlist";
    "-o"; PathLib.joinpath tmpdir "thumb";
    "https://www.youtube.com/watch?v=" +:+ video_id ].

Definition ff_command (thumb_file output_path : string) : list string :=
  [ "ffmpeg"; "-y"; "-i"; thumb_file; output_path ].

(** The files the downloader left in the temporary directory. *)
Definition thumbnails (f : gmap string node) (tmpdir : string) : list string :=
  filter (λ p, is_file f p = true) (iterdir f tmpdir).

(** The lines the fetcher prints from a captured diagnostic text. *)
Definition yt_diagnostics (err : string) : list string :=
  if bool_decide (strip err ≠ "")
  then (λ line, "    [yt-dlp] " +:+ line) <$> splitlines (strip err)
  else [].

Definition ff_diagnostics (err : string) : list string :=
  if bool_decide (strip err ≠ "")
  then (λ line, "    [ffmpeg] " +:+ line) <$> last_n 5 (splitlines (strip err))
  else [].

(** What reaches the console from a child that is not captured. *)
Definition passthrough (verbose : bool) (x : Exit) : list output :=
  if verbose then [Inherited (out_text x) (err_text x)] else [].

(** What the fetcher prints when it reports a failure. *)
Definition yt_report (verbose : bool) (x : Exit) : list output :=
  Print "    [yt-dlp] No thumbnail file written."
  :: (if verbose then [] else Print <$> yt_diagnostics (err_text x)).

Definition ff_report (verbose : bool) (y : Exit) : list output :=
  Print ("    [ffmpeg] Conversion failed (exit " +:+ pretty (exit_code y) +:+ ")")
  :: (if verbose then [] else Print <$> ff_diagnostics (err_text y)).

(** The fetcher as one case analysis on what the two commands do. *)
Definition fetch_cases (host : Host) (video_id output_path : string)
    (verbose : bool) (w : World) : result bool * World :=
  let tmp := mkdtemp host (fs w) in
  let yt := yt_command tmp video_id in
  match exec host yt (<[tmp := Dir]> (fs w)) with
  | CannotStart e =>
      (Raise e, mkWorld (rmtree tmp (<[tmp := Dir]> (fs w))) (console w)
                        (launched w ++ [yt]))
  | Runs x =>
      match thumbnails (fs_after x) tmp with
      | [] =>
          (Ok false,
           mkWorld (rmtree tmp (fs_after x))
                   (console w ++ passthrough verbose x ++ yt_report verbose x)
                   (launched w ++ [yt]))
      | thumb :: _ =>
          let ff := ff_command thumb output_path in
          match exec host ff (fs_after x) with
          | CannotStart e =>
              (Raise e, mkWorld (rmtree tmp (fs_after x))
                                (console w ++ passthrough verbose x)
                                (launched w ++ [yt; ff]))
          | Runs y =>
              if bool_decide (exit_code y ≠ 0%Z) then
                (Ok false,
                 mkWorld (rmtree tmp (fs_after y))
                         (console w ++ passthrough verbose x
                          ++ passthrough verbose y ++ ff_report verbose y)
                         (launched w ++ [yt; ff]))
              else
                (Ok true,
                 mkWorld (rmtree tmp (fs_after y))
                         (console w ++ passthrough verbose x
                          ++ passthrough verbose y)
                         (launched w ++ [yt; ff]))
          end
      end
  end.

(** [p] is neither the directory [tmp] nor anything below it. *)
Definition outside (tmp p : string) : Prop :=
  p ≠ tmp ∧ PathLib.is_below tmp p = false.


(** The first line of a scan that found candidate files. *)
Definition found_line (n : nat) : string :=
  "Found " +:+ pretty n +:+ " video file(s)." +:+ String LF "".

(** ** The per-file state machine of the orchestrator *)

Inductive Outcome := Skipped | Succeeded | Failed.

Definition bump (o : Outcome) (c : Counts) : Counts :=
  match o with
  | Skipped => mkCounts (processed c) (skipped c + 1) (failed c)
  | Succeeded => mkCounts (processed c + 1) (skipped c) (failed c)
  | Failed => mkCounts (processed c) (skipped c) (failed c + 1)
  end.

#[global] Instance Outcome_eq_dec : EqDecision Outcome.
Proof. solve_decision. Defined.


(** The world in which the fetcher is called for a file: the three
    lines that announce it are on the console. *)
Definition announced (video_file video_id : string) (w : World) : World :=
  emits [ Print ("  PROC  " +:+ PathLib.name video_file);
          Print ("        ID     : " +:+ video_id);
          Print ("        Output : " +:+ poster_of video_file) ] w.

Section machine.
Variable host : Host.
Variables dry_run skip_existing verbose : bool.

(** The terminal state a candidate file reaches when the loop comes to
    it in world [w]. *)
Inductive file_step (video_file : string) (w : World) : Outcome → Prop :=
| step_no_id :
    extract_youtube_id (PathLib.name video_file) = None →
    file_step video_file w Skipped
| step_exists id :
    extract_youtube_id (PathLib.name video_file) = Some id →
    skip_existing && path_exists (fs w) (poster_of video_file) = true →
    file_step video_file w Skipped
| step_dry_run id :
    extract_youtube_id (PathLib.name video_file) = Some id →
    skip_existing && path_exists (fs w) (poster_of video_file) = false →
    dry_run = true →
    file_step video_file w Skipped
| step_succeeded id w1 :
    extract_youtube_id (PathLib.name video_file) = Some id →
    skip_existing && path_exists (fs w) (poster_of video_file) = false →
    dry_run = false →
    download_thumbnail host id (poster_of video_file) verbose
      (announced video_file id w) = (Ok true, w1) →
    file_step video_file w Succeeded
| step_failed id w1 :
    extract_youtube_id (PathLib.name video_file) = Some id →
    skip_existing && path_exists (fs w) (poster_of video_file) = false →
    dry_run = false →
    download_thumbnail host id (poster_of video_file) verbose
      (announced video_file id w) = (Ok false, w1) →
    file_step video_file w Failed.


End machine.

(** ** Hosts and worlds on which the program is run in examples *)

Definition tmp_name (f : gmap string node) : string := "/tmp/tmpthumb".

(** A downloader that writes [thumb.webp] next to its output template
    when [yt_ok] and nothing otherwise; every other command is the
    transcoder, which writes [ff_writes] (if any) at its output path and
    exits with [ff_code]. *)
Definition fake_exec (yt_ok : bool) (ff_code : Z) (ff_writes : option string)
    (cmd : list string) (f : gmap string node) : launch :=
  if bool_decide (cmd !! 0 = Some "yt-dlp") then
    if yt_ok
    then Runs (mkExit 0 "" ""
                 (<[default "" (cmd !! 5) +:+ ".webp" := File "webp"]> f))
    else Runs (mkExit 1 "" "ERROR: unable to download video data" f)
  else
    Runs (mkExit ff_code "" "Conversion failed!"
            match ff_writes with
            | Some content => <[default "" (cmd !! 4) := File content]> f
            | None => f
            end).

Definition fake_host (yt_ok : bool) (ff_code : Z) (ff_writes : option string)
  : Host := mkHost (fake_exec yt_ok ff_code ff_writes) tmp_name.

(** A host on which neither tool is installed. *)
Definition bare_host : Host :=
  mkHost (λ _ _, CannotStart (OSError "FileNotFoundError")) tmp_name.


Definition demo_fs : gmap string node :=
  list_to_map
    [ ("/v", Dir);
      ("/v/a-dQw4w9WgXcQ.mp4", File "");
      ("/v/b [aaaaaaaaaaa].MKV", File "");
      ("/v/notes.txt", File "");
      ("/v/vacation_clip.mp4", File "");
      ("/v/.mp4", File "");
      ("/v/sub", Dir);
      ("/v/sub/c_bbbbbbbbbbb.webm", File "") ].

Definition one_fs : gmap string node :=
  list_to_map [ ("/v", Dir); ("/v/a-dQw4w9WgXcQ.mp4", File "") ].

Definition start (f : gmap string node) : World := mkWorld f [] [].

(** ** The command line *)





(** The directory a scan looks into: its children, or all that is below. *)
Definition in_scope (directory : string) (recursive : bool) (p : string)
  : bool :=
  if recursive then PathLib.is_below directory p
  else PathLib.is_child directory p.

(** A single path component: not empty, not a dot, without slash. *)
Definition component (x : list ascii) : Prop :=
  x ≠ [] ∧ x ≠ chars "." ∧ "/"%char ∉ x.

(** * Facts about the library models *)

Lemma chars_app (a b : string) : chars (a +:+ b) = chars a ++ chars b.
Proof. induction a as [|c a IH]; simpl; [done | by rewrite IH]. Qed.

Lemma chars_length (s : string) : length (chars s) = String.length s.
Proof. induction s as [|c s IH]; simpl; [done | by rewrite IH]. Qed.

Lemma str_chars (s : string) : str (chars s) = s.
Proof. apply string_of_list_ascii_of_string. Qed.

Lemma chars_str (l : list ascii) : chars (str l) = l.
Proof. apply list_ascii_of_string_of_list_ascii. Qed.

Lemma chars_inj (a b : string) : chars a = chars b → a = b.
Proof. intros H. rewrite <- (str_chars a), <- (str_chars b). by rewrite H. Qed.

(** ** The matcher *)

Lemma run_cat r1 r2 s st : run (Cat r1 r2) s st = run r1 s st ≫= run r2 s.
Proof. reflexivity. Qed.

Lemma run_alt r1 r2 s st : run (Alt r1 r2) s st = run r1 s st ++ run r2 s st.
Proof. reflexivity. Qed.

Lemma run_rep_S n r s st :
  run (Rep (S n) r) s st = run (Rep n r) s st ≫= run r s.
Proof. reflexivity. Qed.

Lemma run_grp r s st :
  run (Grp r) s st = (λ st' : mstate, (st'.1, Some (st.1, st'.1))) <$> run r s st.
Proof. reflexivity. Qed.

Lemma run_lit c s i g :
  run (Lit c) s (i, g) =
  if bool_decide (s !! i = Some c) then [(S i, g)] else [].
Proof.
  cbn. unfold step_char. cbn. destruct (s !! i) as [x|] eqn:E.
  - destruct (decide (x = c)) as [->|Hne].
    + by rewrite !bool_decide_eq_true_2.
    + rewrite !bool_decide_eq_false_2; [done | congruence | done].
  - by rewrite bool_decide_eq_false_2.
Qed.

Lemma run_bol s i g :
  run Bol s (i, g) = if bool_decide (i = 0) then [(i, g)] else [].
Proof. reflexivity. Qed.

Lemma run_eol s i g :
  run Eol s (i, g) = if at_eol s i then [(i, g)] else [].
Proof. reflexivity. Qed.

Lemma run_cls items s i g :
  run (Cls items) s (i, g) =
  match s !! i with
  | Some c => if in_class items c then [(S i, g)] else []
  | None => []
  end.
Proof. reflexivity. Qed.

(** [r{n}] over a class consumes exactly the next [n] characters, all of
    the class, and has no other way to match. *)
Lemma run_rep_cls items s n i g :
  run (Rep n (Cls items)) s (i, g) =
  if bool_decide (length (take n (drop i s)) = n)
     && forallb (in_class items) (take n (drop i s))
  then [(i + n, g)] else [].
Proof.
  induction n as [|n IH].
  - cbn. rewrite take_0. cbn. by rewrite Nat.add_0_r.
  - rewrite run_rep_S, IH. clear IH.
    destruct (s !! (i + n)) as [c|] eqn:E.
    + rewrite (take_S_r (drop i s) n c) by (by rewrite lookup_drop).
      rewrite length_app, forallb_app. cbn [length forallb].
      assert (Hlen : length (take n (drop i s)) = n).
      { apply lookup_lt_Some in E. rewrite length_take, length_drop. lia. }
      rewrite Hlen, !bool_decide_eq_true_2 by lia. cbn [andb].
      destruct (forallb (in_class items) (take n (drop i s))); cbn [andb].
      * rewrite bind_singleton, run_cls, E.
        destruct (in_class items c); [|done].
        by replace (i + S n) with (S (i + n)) by lia.
      * done.
    + apply lookup_ge_None in E.
      rewrite (bool_decide_eq_false_2 (length (take (S n) _) = S n)).
      2:{ rewrite length_take, length_drop. lia. }
      cbn [andb].
      destruct (_ && _); [|done].
      rewrite bind_singleton, run_cls.
      by rewrite (proj2 (lookup_ge_None s (i + n))).
Qed.

(** The first match of a search is at the least start position that has
    a match at all. *)
Lemma search_Some r s m :
  search_chars r s = Some m →
  ∃ k, k ≤ length s ∧ (∀ j, j < k → match_at r s j = [])
       ∧ head (match_at r s k) = Some m.
Proof.
  unfold search_chars.
  assert (G : ∀ n a, head (seq a n ≫= match_at r s) = Some m →
    ∃ k, a ≤ k < a + n ∧ (∀ j, a ≤ j < k → match_at r s j = [])
         ∧ head (match_at r s k) = Some m).
  { induction n as [|n IH]; intros a H; [done|].
    cbn [seq] in H. rewrite bind_cons in H.
    destruct (match_at r s a) as [|x l] eqn:E.
    - cbn in H. destruct (IH _ H) as (k & Hk & Hlt & Hm).
      exists k. split; [lia|]. split; [|done].
      intros j Hj. destruct (decide (j = a)) as [->|]; [done|]. apply Hlt. lia.
    - exists a. split; [lia|]. split; [intros; lia|]. by rewrite E. }
  intros H. destruct (G _ _ H) as (k & Hk & Hlt & Hm).
  exists k. split; [lia|]. split; [|done]. intros j Hj. apply Hlt. lia.
Qed.

Lemma search_None r s :
  search_chars r s = None → ∀ j, j ≤ length s → match_at r s j = [].
Proof.
  unfold search_chars.
  assert (G : ∀ n a, head (seq a n ≫= match_at r s) = None →
    ∀ j, a ≤ j < a + n → match_at r s j = []).
  { induction n as [|n IH]; intros a H j Hj; [lia|].
    cbn [seq] in H. rewrite bind_cons in H.
    destruct (match_at r s a) as [|x l] eqn:E; [|done].
    destruct (decide (j = a)) as [->|]; [done|]. apply (IH (S a)); [done | lia]. }
  intros H j Hj. apply (G _ _ H). lia.
Qed.

Lemma search_least r s k m :
  k ≤ length s → (∀ j, j < k → match_at r s j = []) →
  head (match_at r s k) = Some m → search_chars r s = Some m.
Proof.
  intros Hk Hlt Hm. destruct (search_chars r s) as [m'|] eqn:E.
  - destruct (search_Some _ _ _ E) as (k' & Hk' & Hlt' & Hm').
    destruct (Nat.lt_trichotomy k k') as [Hc|[->|Hc]].
    + rewrite (Hlt' _ Hc) in Hm. done.
    + congruence.
    + rewrite (Hlt _ Hc) in Hm'. done.
  - rewrite (search_None _ _ E k Hk) in Hm. done.
Qed.

(** ** The two patterns of the program *)

Lemma is_id_chars_window s i :
  bool_decide (length (take 11 (drop i s)) = 11)
  && forallb (in_class ID_CLASS) (take 11 (drop i s))
  = is_id_chars (take 11 (drop i s)).
Proof. reflexivity. Qed.

Lemma match_at_bracketed s i :
  match_at _BRACKETED_RE s i =
  if bracketed_at s i
  then [ {| m_start := i; m_end := i + 13; m_span1 := Some (S i, i + 12) |} ]
  else [].
Proof.
  unfold match_at, _BRACKETED_RE, bracketed_at.
  rewrite run_cat, run_lit.
  destruct (bool_decide (s !! i = Some "["%char)); cbn [andb]; [|done].
  rewrite bind_singleton, run_cat, run_grp, run_rep_cls, is_id_chars_window.
  destruct (is_id_chars _); cbn [andb]; [|done].
  cbn [fmap list_fmap fst snd]. rewrite bind_singleton, run_lit.
  replace (S (S i + 11)) with (i + 13) by lia.
  replace (S i + 11) with (i + 12) by lia.
  by destruct (bool_decide _).
Qed.

Lemma bracketed_at_intro (pre tok post : list ascii) :
  is_id_chars tok = true →
  bracketed_at (pre ++ "["%char :: tok ++ "]"%char :: post) (length pre) = true.
Proof.
  intros Hid. unfold bracketed_at.
  assert (Hlen : length tok = 11).
  { unfold is_id_chars in Hid. apply andb_prop in Hid as [H _].
    by apply bool_decide_eq_true in H. }
  rewrite !andb_true_iff, !bool_decide_eq_true. split; [split|].
  - by rewrite list_lookup_middle.
  - replace (pre ++ "["%char :: tok ++ "]"%char :: post)
      with ((pre ++ ["["%char]) ++ tok ++ "]"%char :: post)
      by (by rewrite <- app_assoc).
    rewrite drop_app_length' by (rewrite length_app; cbn; lia).
    by rewrite take_app_length' by lia.
  - replace (pre ++ "["%char :: tok ++ "]"%char :: post)
      with ((pre ++ "["%char :: tok) ++ "]"%char :: post)
      by (by rewrite <- app_assoc).
    rewrite list_lookup_middle; [done|]. rewrite length_app. cbn. lia.
Qed.

Lemma bracketed_at_elim s i :
  bracketed_at s i = true →
  s = take i s ++ "["%char :: take 11 (drop (S i) s) ++ "]"%char :: drop (i + 13) s
  ∧ is_id_chars (take 11 (drop (S i) s)) = true ∧ length (take i s) = i.
Proof.
  unfold bracketed_at. rewrite !andb_true_iff, !bool_decide_eq_true.
  intros [[Hl Hid] Hr]. split; [|split; [done|]].
  - rewrite <- (take_drop i s) at 1. f_equal.
    rewrite (drop_S s "["%char i Hl). f_equal.
    rewrite <- (take_drop 11 (drop (S i) s)) at 1. f_equal.
    rewrite drop_drop. replace (S i + 11) with (i + 12) by lia.
    rewrite (drop_S s "]"%char (i + 12) Hr). do 2 f_equal. lia.
  - apply lookup_lt_Some in Hl. rewrite length_take. lia.
Qed.

Lemma chars_bracketed (pre tok post : string) :
  chars (pre +:+ "[" +:+ tok +:+ "]" +:+ post)
  = chars pre ++ "["%char :: chars tok ++ "]"%char :: chars post.
Proof. by rewrite !chars_app. Qed.

Lemma search_bracketed_spec s m :
  search_chars _BRACKETED_RE s = Some m →
  ∃ k, bracketed_at s k = true ∧ (∀ j, j < k → bracketed_at s j = false)
       ∧ m_span1 m = Some (S k, k + 12).
Proof.
  intros H. destruct (search_Some _ _ _ H) as (k & _ & Hlt & Hm).
  exists k. rewrite match_at_bracketed in Hm.
  destruct (bracketed_at s k) eqn:E; [|done].
  split; [done|]. split.
  - intros j Hj. specialize (Hlt j Hj). rewrite match_at_bracketed in Hlt.
    by destruct (bracketed_at s j).
  - cbn in Hm. by injection Hm as <-.
Qed.

Lemma search_bracketed_None s :
  search_chars _BRACKETED_RE s = None → ∀ j, bracketed_at s j = false.
Proof.
  intros H j. destruct (decide (j ≤ length s)) as [Hj|Hj].
  - specialize (search_None _ _ H j Hj). rewrite match_at_bracketed.
    by destruct (bracketed_at s j).
  - unfold bracketed_at. rewrite (bool_decide_eq_false_2 (s !! j = _)); [done|].
    rewrite (proj2 (lookup_ge_None s j)); [done | lia].
Qed.

(** * The identifier extractor *)

(** C1. Whenever the stem holds a bracketed identifier, the extractor
    returns the bracketed identifier that starts leftmost in the stem,
    whatever else the name contains (a trailing candidate included). *)
Theorem extract_bracketed_leftmost (filename pre tok post : string) :
  PathLib.stem filename = pre +:+ "[" +:+ tok +:+ "]" +:+ post →
  is_id tok = true →
  ∃ pre1 tok1 post1 : string,
    PathLib.stem filename = pre1 +:+ "[" +:+ tok1 +:+ "]" +:+ post1
    ∧ is_id tok1 = true
    ∧ (∀ pre2 tok2 post2 : string,
         PathLib.stem filename = pre2 +:+ "[" +:+ tok2 +:+ "]" +:+ post2 →
         is_id tok2 = true → String.length pre1 ≤ String.length pre2)
    ∧ extract_youtube_id filename = Some tok1.
Proof.
  intros Hstem Hid. unfold extract_youtube_id, search.
  set (st := PathLib.stem filename) in *.
  assert (Hat : bracketed_at (chars st) (length (chars pre)) = true).
  { rewrite Hstem, chars_bracketed. by apply bracketed_at_intro. }
  destruct (search_chars _BRACKETED_RE (chars st)) as [m|] eqn:E.
  2:{ by rewrite (search_bracketed_None _ E) in Hat. }
  destruct (search_bracketed_spec _ _ E) as (k & Hk & Hlt & Hsp).
  destruct (bracketed_at_elim _ _ Hk) as (Hdec & Hid1 & Hlen).
  exists (str (take k (chars st))), (str (take 11 (drop (S k) (chars st)))),
    (str (drop (k + 13) (chars st))).
  split; [|split; [|split]].
  - apply chars_inj. by rewrite chars_bracketed, !chars_str.
  - unfold is_id. by rewrite chars_str.
  - intros pre2 tok2 post2 H2 Hid2.
    rewrite <- !chars_length, chars_str, Hlen.
    destruct (decide (k ≤ length (chars pre2))) as [|Hn]; [done|].
    assert (bracketed_at (chars st) (length (chars pre2)) = true) as Hc.
    { rewrite H2, chars_bracketed. by apply bracketed_at_intro. }
    rewrite Hlt in Hc by lia. done.
  - unfold group1. rewrite Hsp. cbn [fmap option_fmap option_map fst snd].
    by replace (k + 12 - S k) with 11 by lia.
Qed.

Lemma run_trailing_tail s j :
  run (Cat (Grp (Rep 11 (Cls ID_CLASS))) Eol) s (j, None) =
  if trailing_from s j then [(j + 11, Some (j, j + 11))] else [].
Proof.
  unfold trailing_from.
  rewrite run_cat, run_grp, run_rep_cls, is_id_chars_window.
  destruct (is_id_chars _); cbn [andb]; [|done].
  cbn [fmap list_fmap fst snd]. rewrite bind_singleton, run_eol.
  by destruct (at_eol s (j + 11)).
Qed.

Lemma match_at_trailing s i :
  match_at _TRAILING_RE s i =
  (if bool_decide (i = 0) && trailing_from s i
   then [ {| m_start := i; m_end := i + 11; m_span1 := Some (i, i + 11) |} ]
   else [])
  ++ (if separator_at s i && trailing_from s (S i)
      then [ {| m_start := i; m_end := S i + 11;
                m_span1 := Some (S i, S i + 11) |} ]
      else []).
Proof.
  unfold match_at, _TRAILING_RE.
  rewrite run_cat, run_alt, bind_app, fmap_app. f_equal.
  - rewrite run_bol. destruct (bool_decide (i = 0)); cbn [andb]; [|done].
    rewrite bind_singleton, run_trailing_tail.
    by destruct (trailing_from s i).
  - rewrite run_cls. unfold separator_at, is_separator.
    destruct (s !! i) as [c|]; [|done].
    destruct (in_class _ c); cbn [andb]; [|done].
    rewrite bind_singleton, run_trailing_tail.
    by destruct (trailing_from s (S i)).
Qed.

Lemma search_trailing_Some s m :
  search_chars _TRAILING_RE s = Some m →
  ∃ j, m_span1 m = Some (j, j + 11) ∧ trailing_from s j = true ∧ preceded s j.
Proof.
  intros H. destruct (search_Some _ _ _ H) as (k & _ & _ & Hm).
  rewrite match_at_trailing in Hm.
  destruct (bool_decide (k = 0)) eqn:Ek; cbn [andb] in Hm.
  - apply bool_decide_eq_true in Ek as ->.
    destruct (trailing_from s 0) eqn:E0.
    + cbn in Hm. injection Hm as <-. exists 0. cbn. by repeat split; [|left].
    + cbn [app] in Hm. destruct (separator_at s 0) eqn:Es; [|done].
      cbn [andb] in Hm. destruct (trailing_from s 1) eqn:E1; [|done].
      cbn in Hm. injection Hm as <-. exists 1. cbn.
      repeat split; [done|]. right. by exists 0.
  - cbn [app] in Hm. destruct (separator_at s k) eqn:Es; [|done].
    cbn [andb] in Hm. destruct (trailing_from s (S k)) eqn:E1; [|done].
    cbn in Hm. injection Hm as <-. exists (S k). cbn.
    repeat split; [done|]. right. by exists k.
Qed.

Lemma search_trailing_None s j :
  search_chars _TRAILING_RE s = None →
  trailing_from s j = true → preceded s j → False.
Proof.
  intros H Hj Hp.
  assert (Hlen : j + 11 ≤ length s).
  { unfold trailing_from, is_id_chars in Hj.
    rewrite !andb_true_iff, bool_decide_eq_true in Hj.
    destruct Hj as [[Hl _] _]. rewrite length_take, length_drop in Hl. lia. }
  destruct Hp as [->|(i & -> & Hs)].
  - specialize (search_None _ _ H 0 ltac:(lia)). rewrite match_at_trailing.
    rewrite Hj. by rewrite bool_decide_eq_true_2.
  - specialize (search_None _ _ H i ltac:(lia)). rewrite match_at_trailing.
    rewrite Hj, Hs. cbn [andb]. by destruct (_ && _).
Qed.

Lemma trailing_from_elim s j :
  trailing_from s j = true →
  j + 11 ≤ length s
  ∧ (∀ i c, i < 11 → s !! (j + i) = Some c → in_class ID_CLASS c = true)
  ∧ (j + 11 = length s ∨ j + 12 = length s ∧ s !! (j + 11) = Some LF).
Proof.
  unfold trailing_from, is_id_chars, at_eol.
  rewrite !andb_true_iff, orb_true_iff, andb_true_iff, !bool_decide_eq_true.
  intros [[Hl Hall] He]. rewrite length_take, length_drop in Hl.
  split; [lia|]. split; [|destruct He as [?|[? ?]]; [left|right; split]; done || lia].
  intros i c Hi Hc. rewrite forallb_forall in Hall. apply Hall.
  apply list_elem_of_In, list_elem_of_lookup. exists i.
  by rewrite lookup_take_Some, lookup_drop.
Qed.

Lemma LF_not_id : in_class ID_CLASS LF = false.
Proof. reflexivity. Qed.

(** [$] leaves one place only where a trailing identifier can start. *)
Lemma trailing_from_unique s j j' :
  trailing_from s j = true → trailing_from s j' = true → j = j'.
Proof.
  intros H H'.
  destruct (trailing_from_elim _ _ H) as (Hl & Hid & He).
  destruct (trailing_from_elim _ _ H') as (Hl' & Hid' & He').
  destruct He as [He|[He HLF]], He' as [He'|[He' HLF']]; try lia.
  - replace (j' + 11) with (j + 10) in HLF' by lia.
    apply Hid in HLF'; [|lia]. by rewrite LF_not_id in HLF'.
  - replace (j + 11) with (j' + 10) in HLF by lia.
    apply Hid' in HLF; [|lia]. by rewrite LF_not_id in HLF.
Qed.

Lemma group1_span (s : string) m a b :
  m_span1 m = Some (a, b) →
  group1 s m = Some (str (take (b - a) (drop a (chars s)))).
Proof. intros H. unfold group1. by rewrite H. Qed.

(** What the fallback search returns, in terms of the stem alone. *)
Lemma search_trailing_found (s : string) j :
  trailing_from (chars s) j = true → preceded (chars s) j →
  ∃ m, search _TRAILING_RE s = Some m
       ∧ group1 s m = Some (str (take 11 (drop j (chars s)))).
Proof.
  intros Hj Hp. unfold search.
  destruct (search_chars _TRAILING_RE (chars s)) as [m|] eqn:E.
  - exists m. split; [done|].
    destruct (search_trailing_Some _ _ E) as (j' & Hsp & Hj' & _).
    rewrite (trailing_from_unique _ _ _ Hj Hj').
    rewrite (group1_span _ _ _ _ Hsp). by replace (j' + 11 - j') with 11 by lia.
  - destruct (search_trailing_None _ _ E Hj Hp).
Qed.

Lemma search_trailing_group (s : string) m :
  search _TRAILING_RE s = Some m →
  ∃ j, group1 s m = Some (str (take 11 (drop j (chars s))))
       ∧ trailing_from (chars s) j = true ∧ preceded (chars s) j.
Proof.
  intros E. destruct (search_trailing_Some _ _ E) as (j & Hsp & Hj & Hp).
  exists j. split; [|done].
  rewrite (group1_span _ _ _ _ Hsp). by replace (j + 11 - j) with 11 by lia.
Qed.

Lemma no_bracketed_search (s : string) :
  no_bracketed s → search _BRACKETED_RE s = None.
Proof.
  intros Hno. unfold search.
  destruct (search_chars _BRACKETED_RE (chars s)) as [m|] eqn:E; [|done].
  destruct (search_bracketed_spec _ _ E) as (k & Hk & _ & _).
  destruct (bracketed_at_elim _ _ Hk) as (Hdec & Hid & _).
  specialize (Hno (str (take k (chars s)))
                  (str (take 11 (drop (S k) (chars s))))
                  (str (drop (k + 13) (chars s)))).
  unfold is_id in Hno. rewrite chars_str, Hid in Hno.
  discriminate Hno. apply chars_inj. by rewrite chars_bracketed, !chars_str.
Qed.

Lemma trailing_id_from (s : string) :
  trailing_id s ↔
  trailing_from (chars s) (length (chars s) - 11) = true
  ∧ 11 ≤ length (chars s)
  ∧ preceded (chars s) (length (chars s) - 11).
Proof.
  unfold trailing_id, is_id, last11, last_n. rewrite chars_str, <- chars_length.
  set (l := chars s). set (n := length l).
  assert (Hd : length (drop (n - 11) l) = 11 → take 11 (drop (n - 11) l) = drop (n - 11) l).
  { intros H. by rewrite take_ge by lia. }
  split.
  - intros [Hid Hpre].
    assert (Hn : 11 ≤ n).
    { unfold is_id_chars in Hid. apply andb_prop in Hid as [H _].
      apply bool_decide_eq_true in H. rewrite length_drop in H. lia. }
    split; [|split; [done|]].
    + unfold trailing_from. rewrite Hd by (rewrite length_drop; lia).
      rewrite Hid. cbn [andb]. unfold at_eol.
      rewrite bool_decide_eq_true_2; [done | lia].
    + destruct Hpre as [H|(c & Hc & H12 & Hsep)]; [left; lia|].
      right. exists (n - 12). split; [lia|]. unfold separator_at. by rewrite Hc.
  - intros (Hfrom & Hn & Hp). split.
    + unfold trailing_from in Hfrom. apply andb_prop in Hfrom as [H _].
      by rewrite Hd in H by (rewrite length_drop; lia).
    + destruct Hp as [H|(i & Hi & Hsep)]; [left; lia|].
      right. unfold separator_at in Hsep.
      destruct (l !! i) as [c|] eqn:Ec; [|done].
      exists c. replace (n - 12) with i by lia. split; [done|]. split; [lia|done].
Qed.

Lemma extract_no_bracket (filename : string) :
  no_bracketed (PathLib.stem filename) →
  extract_youtube_id filename =
  match search _TRAILING_RE (PathLib.stem filename) with
  | Some m => group1 (PathLib.stem filename) m
  | None => None
  end.
Proof.
  intros Hno. unfold extract_youtube_id. by rewrite (no_bracketed_search _ Hno).
Qed.

(** C2. For a stem without bracketed identifier, the extractor returns
    the final 11 characters of the stem exactly when they are an
    identifier preceded by the start of the stem or by a separator; a stem
    that is itself an identifier is returned whole, and a stem shorter than
    11 characters never matches the trailing pattern. *)
Theorem extract_trailing_iff (filename : string) :
  no_bracketed (PathLib.stem filename) →
  (extract_youtube_id filename = Some (last11 (PathLib.stem filename))
   ↔ trailing_id (PathLib.stem filename))
  ∧ (is_id (PathLib.stem filename) = true →
     extract_youtube_id filename = Some (PathLib.stem filename))
  ∧ (String.length (PathLib.stem filename) < 11 →
     search _TRAILING_RE (PathLib.stem filename) = None
     ∧ extract_youtube_id filename = None).
Proof.
  intros Hno. rewrite (extract_no_bracket _ Hno).
  set (st := PathLib.stem filename). clearbody st. clear Hno.
  assert (Hback : trailing_id st →
    match search _TRAILING_RE st with
    | Some m => group1 st m | None => None end = Some (last11 st)).
  { intros Hid. apply trailing_id_from in Hid as (Hfrom & Hn & Hp).
    destruct (search_trailing_found _ _ Hfrom Hp) as (m & -> & ->).
    unfold last11, last_n. by rewrite take_ge by (rewrite length_drop; lia). }
  split; [split; [|done]|split].
  - destruct (search _TRAILING_RE st) as [m|] eqn:E; [|done].
    destruct (search_trailing_group _ _ E) as (j & -> & Hfrom & Hp).
    intros Heq. injection Heq as Heq. apply (f_equal chars) in Heq.
    unfold last11, last_n in Heq. rewrite !chars_str in Heq.
    destruct (trailing_from_elim _ _ Hfrom) as (Hl & Hid & [He|[He HLF]]).
    + apply trailing_id_from.
      replace (length (chars st) - 11) with j by lia. split; [done|]. split; [lia|done].
    + exfalso. assert (H10 : take 11 (drop j (chars st)) !! 10 = Some LF).
      { rewrite Heq, lookup_drop, <- HLF. f_equal. lia. }
      apply lookup_take_Some in H10 as [H10 _]. rewrite lookup_drop in H10.
      apply Hid in H10; [|lia]. by rewrite LF_not_id in H10.
  - intros Hid. rewrite Hback.
    + unfold last11, last_n, is_id, is_id_chars in *.
      apply andb_prop in Hid as [H _]. apply bool_decide_eq_true in H.
      by rewrite H, Nat.sub_diag, drop_0, str_chars.
    + assert (Hlen : length (chars st) = 11).
      { unfold is_id, is_id_chars in Hid. apply andb_prop in Hid as [H _].
        by apply bool_decide_eq_true in H. }
      split; [|left; by rewrite <- chars_length].
      unfold last11, last_n. rewrite Hlen. by rewrite Nat.sub_diag, drop_0, str_chars.
  - intros Hlt.
    destruct (search _TRAILING_RE st) as [m|] eqn:E; [|done].
    destruct (search_trailing_group _ _ E) as (j & _ & Hfrom & _).
    destruct (trailing_from_elim _ _ Hfrom) as (Hl & _).
    rewrite chars_length in Hl. lia.
Qed.

(** Python's [$] also matches before a final newline: for such a stem the
    extractor returns an identifier that is not the final 11 characters. *)
Example extract_before_final_newline :
  let filename := "a-dQw4w9WgXcQ" +:+ String LF "" in
  PathLib.stem filename = filename
  ∧ extract_youtube_id filename = Some "dQw4w9WgXcQ"
  ∧ last11 filename = "Qw4w9WgXcQ" +:+ String LF "".
Proof. vm_compute. done. Qed.

(** What the extractor returns is an identifier: 11 characters of the
    class, never the empty string. *)
Lemma extract_is_id (filename id : string) :
  extract_youtube_id filename = Some id → is_id id = true.
Proof.
  unfold extract_youtube_id, search.
  set (st := PathLib.stem filename).
  destruct (search_chars _BRACKETED_RE (chars st)) as [m|] eqn:E.
  - destruct (search_bracketed_spec _ _ E) as (k & Hk & _ & Hsp).
    destruct (bracketed_at_elim _ _ Hk) as (_ & Hid & _).
    rewrite (group1_span _ _ _ _ Hsp).
    replace (k + 12 - S k) with 11 by lia.
    intros [= <-]. unfold is_id. by rewrite chars_str.
  - destruct (search_chars _TRAILING_RE (chars st)) as [m|] eqn:E2; [|done].
    destruct (search_trailing_group st m E2) as (j & -> & Hfrom & _).
    intros [= <-]. unfold is_id. rewrite chars_str.
    unfold trailing_from in Hfrom. by apply andb_prop in Hfrom as [? _].
Qed.

Lemma extract_not_empty (filename id : string) :
  extract_youtube_id filename = Some id → bool_decide (id = "") = false.
Proof.
  intros H. apply extract_is_id in H. apply bool_decide_eq_false.
  intros ->. done.
Qed.

Lemma no_bracketed_intro (s : string) :
  search _BRACKETED_RE s = None → no_bracketed s.
Proof.
  intros H pre tok post Hs. destruct (is_id tok) eqn:Hid; [|done].
  pose proof (bracketed_at_intro (chars pre) (chars tok) (chars post) Hid) as Hat.
  rewrite <- chars_bracketed, <- Hs in Hat.
  by rewrite (search_bracketed_None _ H) in Hat.
Qed.

(** C7. The extractor is a total function of the file name: it always
    returns, and what it returns is the explicit not-found value exactly
    when neither pattern matches the stem, that is, when the stem holds no
    bracketed identifier and no identifier that ends where [$] matches with
    the start of the stem or a separator before it. *)
Theorem extract_total_not_found (filename : string) :
  (∃ r : option string, extract_youtube_id filename = r)
  ∧ (extract_youtube_id filename = None
     ↔ search _BRACKETED_RE (PathLib.stem filename) = None
       ∧ search _TRAILING_RE (PathLib.stem filename) = None)
  ∧ (search _BRACKETED_RE (PathLib.stem filename) = None
     ↔ no_bracketed (PathLib.stem filename))
  ∧ (search _TRAILING_RE (PathLib.stem filename) = None
     ↔ ∀ j, trailing_from (chars (PathLib.stem filename)) j = true →
            ¬ preceded (chars (PathLib.stem filename)) j).
Proof.
  split; [by eexists|].
  set (st := PathLib.stem filename). split; [|split].
  - destruct (extract_youtube_id filename) as [id|] eqn:E.
    + split; [done|]. intros [H1 H2]. unfold extract_youtube_id in E.
      fold st in E. by rewrite H1, H2 in E.
    + split; [|done]. intros _. unfold extract_youtube_id, search in *.
      fold st in E.
      destruct (search_chars _BRACKETED_RE (chars st)) as [m|] eqn:E1.
      * destruct (search_bracketed_spec _ _ E1) as (k & _ & _ & Hsp).
        by rewrite (group1_span _ _ _ _ Hsp) in E.
      * split; [done|].
        destruct (search_chars _TRAILING_RE (chars st)) as [m|] eqn:E2; [|done].
        destruct (search_trailing_group st m E2) as (j & Hg & _).
        by rewrite Hg in E.
  - split; [apply no_bracketed_intro | apply no_bracketed_search].
  - split.
    + intros H j Hj Hp. exact (search_trailing_None _ _ H Hj Hp).
    + intros H. destruct (search _TRAILING_RE st) as [m|] eqn:E; [|done].
      destruct (search_trailing_group st m E) as (j & _ & Hj & Hp).
      destruct (H j Hj Hp).
Qed.

(** * Candidate files *)

Lemma lower_char_dot c : lower_char c = "."%char ↔ c = "."%char.
Proof.
  destruct c as [[] [] [] [] [] [] [] []]; vm_compute; split; congruence.
Qed.

Lemma rfind_lower l : rfind "." (map lower_char l) = rfind "." l.
Proof.
  induction l as [|x l IH]; [done|]. cbn [map rfind]. rewrite IH.
  destruct (0 <=? rfind "." l)%Z; [done|].
  destruct (decide (x = "."%char)) as [->|Hne].
  - by rewrite !bool_decide_eq_true_2.
  - rewrite !bool_decide_eq_false_2; [done..|]. by rewrite lower_char_dot.
Qed.

Lemma has_suffix_lower l :
  PathLib.has_suffix (map lower_char l) = PathLib.has_suffix l.
Proof. unfold PathLib.has_suffix. by rewrite rfind_lower, length_map. Qed.

(** A name that is a recognized extension, in any case, has no suffix. *)
Lemma extension_name_no_suffix (ext : string) :
  lower ext ∈ VIDEO_EXTENSIONS → PathLib.has_suffix (chars ext) = false.
Proof.
  intros H. rewrite <- has_suffix_lower.
  replace (map lower_char (chars ext)) with (chars (lower ext))
    by (unfold lower; by rewrite chars_str).
  unfold VIDEO_EXTENSIONS in H. apply elem_of_list_to_set in H.
  repeat (apply elem_of_cons in H as [->|H]; [reflexivity|]).
  by apply elem_of_nil in H.
Qed.

(** C10. A file whose whole name is a recognized extension, such as
    [.mp4], has an empty suffix, so it fails the extension test and is never
    among the candidate files. *)
Theorem dotfile_never_candidate (f : gmap string node) (p ext : string) :
  lower ext ∈ VIDEO_EXTENSIONS →
  PathLib.name p = ext →
  PathLib.suffix p = ""
  ∧ is_video_file f p = false
  ∧ ∀ directory recursive, p ∉ video_files f directory recursive.
Proof.
  intros Hext Hname.
  assert (Hsuf : PathLib.suffix p = "").
  { unfold PathLib.suffix, PathLib.suffix_chars.
    apply (f_equal chars) in Hname. unfold PathLib.name in Hname.
    rewrite chars_str in Hname. rewrite Hname.
    by rewrite (extension_name_no_suffix _ Hext). }
  assert (Hno : is_video_file f p = false).
  { unfold is_video_file. rewrite Hsuf. by rewrite andb_false_r. }
  split; [done|]. split; [done|].
  intros directory recursive Hin. unfold video_files, PathLib.sorted in Hin.
  rewrite merge_sort_Permutation in Hin.
  apply list_elem_of_filter in Hin as [Hv _]. congruence.
Qed.

(** * The fetcher *)

Lemma for_each_print (pre : string) (lines : list string) w :
  for_each lines (λ line, print (pre +:+ line)) w
  = (Ok tt, emits (Print <$> ((λ line, pre +:+ line) <$> lines)) w).
Proof.
  revert w. induction lines as [|l lines IH]; intros w.
  - cbn. unfold emits. rewrite app_nil_r. by destruct w.
  - cbn [for_each]. unfold mbind, M_bind. cbn [print]. rewrite IH.
    unfold emits, emit. cbn. by rewrite <- app_assoc.
Qed.

Lemma print_run line w : print line w = (Ok tt, emit (Print line) w).
Proof. reflexivity. Qed.

Section fetcher.
Variable host : Host.

Lemma download_thumbnail_cases video_id output_path verbose w :
  download_thumbnail host video_id output_path verbose w
  = fetch_cases host video_id output_path verbose w.
Proof.
  unfold download_thumbnail, fetch_cases, with_TemporaryDirectory.
  fold (yt_command (mkdtemp host (fs w)) video_id).
  set (tmp := mkdtemp host (fs w)). set (yt := yt_command tmp video_id).
  unfold mbind at 1. unfold M_bind at 1. unfold subprocess_run at 1.
  cbn [fs set_fs console launched].
  destruct (exec host yt (<[tmp:=Dir]> (fs w))) as [e|x]; [done|].
  destruct verbose; cbn [negb];
    (unfold mbind at 1; unfold M_bind at 1;
     cbn [get_fs emit set_fs fs console launched];
     fold (thumbnails (fs_after x) tmp);
     destruct (thumbnails (fs_after x) tmp) as [|thumb rest];
     [| fold (ff_command thumb output_path);
        unfold mbind at 1; unfold M_bind at 1; unfold subprocess_run at 1;
        cbn [fs set_fs console launched emit];
        rewrite <- (app_assoc (launched w)); cbn [app];
        destruct (exec host (ff_command thumb output_path) (fs_after x)) as [e|y];
        [| cbn [returncode]; destruct (bool_decide (exit_code y ≠ 0%Z)) ] ]);
    unfold yt_report, ff_report, yt_diagnostics, ff_diagnostics, passthrough;
    try destruct (bool_decide (strip (err_text x) ≠ "")) eqn:Ex;
    try destruct (bool_decide (strip (err_text y) ≠ "")) eqn:Ey;
    repeat first
      [ rewrite print_run | rewrite for_each_print | rewrite Ex | rewrite Ey
      | progress cbv beta iota zeta delta
          [mbind M_bind mret M_ret get_fs strip_of stderr returncode] ];
    cbv beta iota zeta delta [emits emit set_fs fs console launched];
    cbn [app]; rewrite <- ?app_assoc, ?app_nil_r;
    reflexivity.
Qed.

(** Every call of the fetcher shows in the list of launched commands:
    its first action is to launch the downloader. *)
Lemma download_thumbnail_launches video_id output_path verbose w :
  ∃ rest,
    launched (download_thumbnail host video_id output_path verbose w).2
    = launched w ++ yt_command (mkdtemp host (fs w)) video_id :: rest.
Proof.
  rewrite download_thumbnail_cases. unfold fetch_cases.
  destruct (exec host _ (<[_:=Dir]> (fs w))) as [e|x]; [by exists []|].
  destruct (thumbnails _ _) as [|thumb rest]; [by exists []|].
  destruct (exec host (ff_command _ _) _) as [e|y]; [by eexists|].
  destruct (bool_decide _); by eexists.
Qed.

End fetcher.

Lemma rmtree_outside tmp p (f : gmap string node) :
  outside tmp p → rmtree tmp f !! p = f !! p.
Proof.
  intros [Hne Hb]. unfold rmtree.
  destruct (f !! p) as [n|] eqn:E.
  - apply map_lookup_filter_Some. split; [done|]. cbn. split; [congruence|done].
  - apply map_lookup_filter_None. by left.
Qed.

Section fetcher_claims.
Variable host : Host.

(** C3 (amended). When the fetch fails, the fetcher itself has neither
    written nor removed anything at a destination outside its temporary
    directory.  If the downloader left no file, the transcoder was not
    launched, so the destination is as the downloader left the file system;
    if the transcoder exited with a non-zero code, the destination is as the
    transcoder left it, without any clean-up. *)
Theorem failed_fetch_destination video_id output_path verbose w w' :
  outside (mkdtemp host (fs w)) output_path →
  download_thumbnail host video_id output_path verbose w = (Ok false, w') →
  let tmp := mkdtemp host (fs w) in
  let yt := yt_command tmp video_id in
  (∃ x, exec host yt (<[tmp := Dir]> (fs w)) = Runs x
        ∧ thumbnails (fs_after x) tmp = []
        ∧ launched w' = launched w ++ [yt]
        ∧ fs w' !! output_path = fs_after x !! output_path)
  ∨ (∃ x thumb rest y,
        exec host yt (<[tmp := Dir]> (fs w)) = Runs x
        ∧ thumbnails (fs_after x) tmp = thumb :: rest
        ∧ exec host (ff_command thumb output_path) (fs_after x) = Runs y
        ∧ exit_code y ≠ 0%Z
        ∧ launched w' = launched w ++ [yt; ff_command thumb output_path]
        ∧ fs w' !! output_path = fs_after y !! output_path).
Proof.
  intros Hout H. rewrite download_thumbnail_cases in H.
  unfold fetch_cases in H. cbv zeta in *.
  set (tmp := mkdtemp host (fs w)) in *. set (yt := yt_command tmp video_id) in *.
  destruct (exec host yt (<[tmp:=Dir]> (fs w))) as [e|x]; [done|].
  destruct (thumbnails (fs_after x) tmp) as [|thumb rest] eqn:Et.
  - left. exists x. injection H as <-. cbn. by rewrite rmtree_outside.
  - right. destruct (exec host (ff_command thumb output_path) (fs_after x))
      as [e|y] eqn:Ef; [done|].
    destruct (bool_decide (exit_code y ≠ 0%Z)) eqn:Ec; [|done].
    apply bool_decide_eq_true in Ec. injection H as <-.
    exists x, thumb, rest, y. cbn. by rewrite rmtree_outside.
Qed.

(** C4 (amended). When a tool fails, the fetcher prints the tool's
    diagnostic text (every line of it for the downloader, its last five lines
    for the transcoder) exactly when verbose reporting is disabled, because
    only then is the text captured; with verbose reporting enabled the tools
    write to the console themselves and the fetcher prints its own failure
    line only. *)
Theorem failed_fetch_console video_id output_path verbose w w' :
  download_thumbnail host video_id output_path verbose w = (Ok false, w') →
  let tmp := mkdtemp host (fs w) in
  let yt := yt_command tmp video_id in
  (∃ x, exec host yt (<[tmp := Dir]> (fs w)) = Runs x
        ∧ thumbnails (fs_after x) tmp = []
        ∧ console w' = console w ++
            if verbose
            then [ Inherited (out_text x) (err_text x);
                   Print "    [yt-dlp] No thumbnail file written." ]
            else Print <$> ("    [yt-dlp] No thumbnail file written."
                            :: yt_diagnostics (err_text x)))
  ∨ (∃ x thumb rest y,
        exec host yt (<[tmp := Dir]> (fs w)) = Runs x
        ∧ thumbnails (fs_after x) tmp = thumb :: rest
        ∧ exec host (ff_command thumb output_path) (fs_after x) = Runs y
        ∧ exit_code y ≠ 0%Z
        ∧ console w' = console w ++
            if verbose
            then [ Inherited (out_text x) (err_text x);
                   Inherited (out_text y) (err_text y);
                   Print ("    [ffmpeg] Conversion failed (exit "
                          +:+ pretty (exit_code y) +:+ ")") ]
            else Print <$> (("    [ffmpeg] Conversion failed (exit "
                             +:+ pretty (exit_code y) +:+ ")")
                            :: ff_diagnostics (err_text y))).
Proof.
  intros H. rewrite download_thumbnail_cases in H.
  unfold fetch_cases in H. cbv zeta in *.
  set (tmp := mkdtemp host (fs w)) in *. set (yt := yt_command tmp video_id) in *.
  destruct (exec host yt (<[tmp:=Dir]> (fs w))) as [e|x]; [done|].
  destruct (thumbnails (fs_after x) tmp) as [|thumb rest] eqn:Et.
  - left. exists x. injection H as <-. cbn. by destruct verbose.
  - right. destruct (exec host (ff_command thumb output_path) (fs_after x))
      as [e|y] eqn:Ef; [done|].
    destruct (bool_decide (exit_code y ≠ 0%Z)) eqn:Ec; [|done].
    apply bool_decide_eq_true in Ec. injection H as <-.
    exists x, thumb, rest, y. cbn. by destruct verbose.
Qed.

End fetcher_claims.

(** * The scanner *)

Lemma only_printed_refl w : only_printed w w.
Proof. done. Qed.

Lemma only_printed_trans w1 w2 w3 :
  only_printed w1 w2 → only_printed w2 w3 → only_printed w1 w3.
Proof. intros [? ?] [? ?]. split; congruence. Qed.

Lemma only_printed_emit o w : only_printed w (emit o w).
Proof. done. Qed.

Lemma emit_as_emits o w : emit o w = emits [o] w.
Proof. reflexivity. Qed.

Lemma emits_emits a b w : emits b (emits a w) = emits (a ++ b) w.
Proof. unfold emits. cbn. by rewrite <- app_assoc. Qed.

Lemma only_printed_emits outs w : only_printed w (emits outs w).
Proof. done. Qed.

Ltac run_prints :=
  repeat first
    [ rewrite print_run
    | progress cbv beta iota zeta delta [mbind M_bind mret M_ret get_fs] ];
  rewrite ?emit_as_emits, ?emits_emits; cbn [app].

Section scanner.
Variable host : Host.

(** The loop body as one case analysis on the guards and on what the
    fetcher returns. *)
Lemma scan_file_cases dry_run skip_existing verbose video_file c w :
  scan_file host dry_run skip_existing verbose video_file c w =
  match extract_youtube_id (PathLib.name video_file) with
  | None =>
      (Ok (bump Skipped c),
       emits [ Print ("  SKIP  " +:+ PathLib.name video_file);
               Print "        Reason : no YouTube ID detected in filename";
               Print "" ] w)
  | Some id =>
      if skip_existing && path_exists (fs w) (poster_of video_file) then
        (Ok (bump Skipped c),
         emits [ Print ("  SKIP  " +:+ PathLib.name video_file);
                 Print ("        Reason : poster already exists ("
                        +:+ PathLib.name (poster_of video_file) +:+ ")");
                 Print "" ] w)
      else if dry_run then
        (Ok (bump Skipped c),
         emits [ Print "        [dry run — skipping download]"; Print "" ]
               (announced video_file id w))
      else
        match download_thumbnail host id (poster_of video_file) verbose
                (announced video_file id w) with
        | (Ok true, w1) =>
            (Ok (bump Succeeded c),
             emits [ Print "        Status : OK"; Print "" ] w1)
        | (Ok false, w1) =>
            (Ok (bump Failed c),
             emits [ Print "        Status : FAILED"; Print "" ] w1)
        | (Raise e, w1) => (Raise e, w1)
        end
  end.
Proof.
  unfold scan_file.
  destruct (extract_youtube_id (PathLib.name video_file)) as [id|] eqn:E.
  2:{ by run_prints. }
  rewrite (extract_not_empty _ _ E). fold (poster_of video_file).
  unfold mbind at 1. unfold M_bind at 1. cbn [get_fs].
  destruct (skip_existing && path_exists (fs w) (poster_of video_file)).
  { by run_prints. }
  destruct dry_run.
  { run_prints. unfold announced. by rewrite emits_emits. }
  run_prints. fold (announced video_file id w).
  destruct (download_thumbnail host id (poster_of video_file) verbose
              (announced video_file id w)) as [[[]|e] w1]; by run_prints.
Qed.

(** With [dry_run] set, the loop body ends in the skipped counter and
    leaves files and processes alone. *)
Lemma scan_file_dry_run skip_existing verbose video_file c w :
  ∃ w', scan_file host true skip_existing verbose video_file c w
        = (Ok (bump Skipped c), w')
        ∧ only_printed w w'.
Proof.
  unfold scan_file.
  destruct (extract_youtube_id (PathLib.name video_file)) as [id|].
  2:{ eexists. split; [reflexivity|done]. }
  destruct (bool_decide (id = "")).
  { eexists. split; [reflexivity|done]. }
  unfold mbind at 1. unfold M_bind, get_fs.
  destruct (skip_existing && path_exists (fs w) _);
    (eexists; split; [reflexivity|done]).
Qed.

Lemma scan_loop_dry_run skip_existing verbose files c w :
  ∃ w', scan_loop host true skip_existing verbose files c w
        = (Ok (mkCounts (processed c) (skipped c + length files) (failed c)), w')
        ∧ only_printed w w'.
Proof.
  revert c w. induction files as [|f files IH]; intros c w.
  - exists w. cbn. rewrite Nat.add_0_r. by destruct c.
  - destruct (scan_file_dry_run skip_existing verbose f c w) as (w1 & E1 & H1).
    destruct (IH (bump Skipped c) w1) as (w2 & E2 & H2).
    exists w2. split; [|by eapply only_printed_trans].
    cbn [scan_loop]. unfold mbind, M_bind. rewrite E1, E2. cbn.
    do 3 f_equal. lia.
Qed.

(** C8. With dry run enabled the scan completes without launching any
    command, hence without any call of the fetcher (a call always launches
    the downloader, [download_thumbnail_launches]), and without touching any
    file, whatever the candidate files and their names. *)
Theorem dry_run_never_fetches directory recursive skip_existing verbose w :
  ∃ w', scan_directory host directory recursive true skip_existing verbose w
        = (Ok tt, w')
        ∧ launched w' = launched w ∧ fs w' = fs w.
Proof.
  unfold scan_directory. unfold mbind at 1. unfold M_bind, get_fs.
  destruct (video_files (fs w) directory recursive) as [|f files] eqn:E.
  - eexists. split; [reflexivity|done].
  - unfold mbind, M_bind. cbn [print].
    destruct (scan_loop_dry_run skip_existing verbose (f :: files)
                (mkCounts 0 0 0) (emit (Print ("Found " +:+ pretty (length (f :: files)) +:+ " video file(s)." +:+ String LF "")) w))
      as (w1 & E1 & [H1 H2]).
    rewrite E1. eexists. split; [reflexivity|]. by cbn.
Qed.





Lemma scan_loop_cons dry_run skip_existing verbose video_file rest c w :
  scan_loop host dry_run skip_existing verbose (video_file :: rest) c w =
  match scan_file host dry_run skip_existing verbose video_file c w with
  | (Ok c1, w1) => scan_loop host dry_run skip_existing verbose rest c1 w1
  | (Raise e, w1) => (Raise e, w1)
  end.
Proof. reflexivity. Qed.









Lemma scan_directory_cases directory recursive dry_run skip_existing verbose w :
  scan_directory host directory recursive dry_run skip_existing verbose w =
  match video_files (fs w) directory recursive with
  | [] => (Ok tt, emit (Print "No video files found.") w)
  | f :: rest =>
      match scan_loop host dry_run skip_existing verbose (f :: rest)
              (mkCounts 0 0 0)
              (emit (Print (found_line (length (f :: rest)))) w) with
      | (Ok c, w1) =>
          (Ok tt, emits [ Print (repeat_str "-" (String.length (summary_line c)));
                          Print (summary_line c) ] w1)
      | (Raise e, w1) => (Raise e, w1)
      end
  end.
Proof.
  unfold scan_directory. unfold mbind at 1. unfold M_bind at 1. cbn [get_fs].
  destruct (video_files (fs w) directory recursive) as [|f rest]; [done|].
  unfold mbind at 1. unfold M_bind at 1. rewrite print_run.
  fold (found_line (length (f :: rest))).
  unfold mbind at 1. unfold M_bind at 1.
  destruct (scan_loop host dry_run skip_existing verbose (f :: rest) _ _)
    as [[c|e] w1]; [|done].
  by run_prints.
Qed.




Lemma scan_file_existing dry_run verbose video_file c w :
  (∀ id, extract_youtube_id (PathLib.name video_file) = Some id →
         path_exists (fs w) (poster_of video_file) = true) →
  ∃ w', scan_file host dry_run true verbose video_file c w
        = (Ok (bump Skipped c), w')
        ∧ only_printed w w'.
Proof.
  intros Hex. rewrite scan_file_cases.
  destruct (extract_youtube_id (PathLib.name video_file)) as [id|].
  - rewrite (Hex id eq_refl). cbn [andb]. by eexists.
  - by eexists.
Qed.

Lemma scan_loop_existing dry_run verbose files c w :
  (∀ video_file id, video_file ∈ files →
     extract_youtube_id (PathLib.name video_file) = Some id →
     path_exists (fs w) (poster_of video_file) = true) →
  ∃ w', scan_loop host dry_run true verbose files c w
        = (Ok (mkCounts (processed c) (skipped c + length files) (failed c)), w')
        ∧ only_printed w w'.
Proof.
  revert c w. induction files as [|f files IH]; intros c w Hex.
  - exists w. cbn. rewrite Nat.add_0_r. by destruct c.
  - destruct (scan_file_existing dry_run verbose f c w) as (w1 & E1 & H1).
    { intros id. apply Hex. by left. }
    destruct (IH (bump Skipped c) w1) as (w2 & E2 & H2).
    { intros f' id Hin. destruct H1 as [-> _]. apply Hex. by right. }
    exists w2. split; [|by eapply only_printed_trans].
    rewrite scan_loop_cons, E1, E2. cbn. do 3 f_equal. lia.
Qed.

(** C9 (amended). With skip-existing enabled, a candidate file whose
    [<stem>-poster.jpg] exists when the loop reaches it is recorded as
    Skipped, and nothing is launched or written for it; hence a run in which
    every file with an identifier already has its asset (such as the run
    after one in which every fetch produced its asset) fetches nothing. *)
Theorem existing_asset_is_skipped dry_run verbose :
  (∀ video_file c w,
     path_exists (fs w) (poster_of video_file) = true →
     ∃ w', scan_file host dry_run true verbose video_file c w
           = (Ok (bump Skipped c), w')
           ∧ launched w' = launched w ∧ fs w' = fs w)
  ∧ (∀ directory recursive w,
       (∀ video_file id,
          video_file ∈ video_files (fs w) directory recursive →
          extract_youtube_id (PathLib.name video_file) = Some id →
          path_exists (fs w) (poster_of video_file) = true) →
       ∃ w', scan_directory host directory recursive dry_run true verbose w
             = (Ok tt, w')
             ∧ launched w' = launched w ∧ fs w' = fs w).
Proof.
  split.
  - intros f c w Hex.
    destruct (scan_file_existing dry_run verbose f c w) as (w' & E & [H1 H2]);
      [done|]. by exists w'.
  - intros directory recursive w Hex. rewrite scan_directory_cases.
    destruct (video_files (fs w) directory recursive) as [|f rest] eqn:Ef.
    { by eexists. }
    destruct (scan_loop_existing dry_run verbose (f :: rest) (mkCounts 0 0 0)
                (emit (Print (found_line (length (f :: rest)))) w))
      as (w1 & -> & [H1 H2]); [done|].
    eexists. split; [reflexivity|]. by cbn.
Qed.

(** Where a file is Failed, its fetcher call returned failure, and the
    other way round. *)
Lemma file_step_Failed dry_run skip_existing verbose video_file w :
  file_step host dry_run skip_existing verbose video_file w Failed ↔
  ∃ id w1,
    extract_youtube_id (PathLib.name video_file) = Some id
    ∧ skip_existing && path_exists (fs w) (poster_of video_file) = false
    ∧ dry_run = false
    ∧ download_thumbnail host id (poster_of video_file) verbose
        (announced video_file id w) = (Ok false, w1).
Proof.
  split.
  - inversion 1; eauto 10.
  - intros (id & w1 & ? & ? & ? & ?). by eapply step_failed.
Qed.

End scanner.

(** * The program on concrete inputs *)

Example extract_bracketed_example :
  extract_youtube_id "My Video [dQw4w9WgXcQ].mp4" = Some "dQw4w9WgXcQ".
Proof. vm_compute. reflexivity. Qed.

Example extract_trailing_example :
  extract_youtube_id "my-video-dQw4w9WgXcQ.mkv" = Some "dQw4w9WgXcQ".
Proof. vm_compute. reflexivity. Qed.

Example extract_none_example : extract_youtube_id "vacation_clip.mp4" = None.
Proof. vm_compute. reflexivity. Qed.

Example extract_bare_id_example :
  extract_youtube_id "dQw4w9WgXcQ.mp4" = Some "dQw4w9WgXcQ".
Proof. vm_compute. reflexivity. Qed.

Example extract_inner_token_example :
  extract_youtube_id "xdQw4w9WgXcQ.mp4" = None.
Proof. vm_compute. reflexivity. Qed.

Example extract_first_bracket_example :
  extract_youtube_id "[aaaaaaaaaaa] x [bbbbbbbbbbb]-ccccccccccc.mp4"
  = Some "aaaaaaaaaaa".
Proof. vm_compute. reflexivity. Qed.

Example demo_candidates :
  video_files demo_fs "/v" true
  = [ "/v/a-dQw4w9WgXcQ.mp4"; "/v/b [aaaaaaaaaaa].MKV";
      "/v/sub/c_bbbbbbbbbbb.webm"; "/v/vacation_clip.mp4" ]
  ∧ video_files demo_fs "/v" false
    = [ "/v/a-dQw4w9WgXcQ.mp4"; "/v/b [aaaaaaaaaaa].MKV";
        "/v/vacation_clip.mp4" ].
Proof. vm_compute. done. Qed.

(** A scan that succeeds, followed by a second scan with skip-existing. *)
Example demo_two_runs :
  let h := fake_host true 0 (Some "jpeg") in
  let r1 := scan_directory h "/v" true false true false (start demo_fs) in
  let r2 := scan_directory h "/v" true false true false (r1.2) in
  r1.1 = Ok tt ∧ r2.1 = Ok tt
  ∧ last (console r1.2) = Some (Print "Done.  Processed: 3  Skipped: 1  Failed: 0")
  ∧ last (console r2.2) = Some (Print "Done.  Processed: 0  Skipped: 4  Failed: 0")
  ∧ length (launched r1.2) = 6 ∧ launched r2.2 = launched r1.2.
Proof. vm_compute. done. Qed.

(** ** Runs on which claims of the specification fail *)

(** C3 as stated fails: the transcoder is handed the destination path
    itself, so a transcoder that writes and then exits with a non-zero code
    leaves a file at the destination of a failed fetch. *)
Lemma failed_transcode_writes_destination :
  let dest := "/v/a-dQw4w9WgXcQ-poster.jpg" in
  let r := download_thumbnail (fake_host true 1 (Some "partial"))
             "dQw4w9WgXcQ" dest false (start one_fs) in
  r.1 = Ok false
  ∧ fs (start one_fs) !! dest = None
  ∧ fs r.2 !! dest = Some (File "partial").
Proof. vm_compute. done. Qed.

(** C4 as stated fails: with verbose disabled the fetcher prints the
    downloader's diagnostic text; with verbose enabled it prints none. *)
Lemma quiet_failure_prints_diagnostics :
  let dest := "/v/a-dQw4w9WgXcQ-poster.jpg" in
  let quiet := download_thumbnail (fake_host false 1 None)
                 "dQw4w9WgXcQ" dest false (start one_fs) in
  let loud := download_thumbnail (fake_host false 1 None)
                "dQw4w9WgXcQ" dest true (start one_fs) in
  quiet.1 = Ok false
  ∧ console quiet.2
    = [ Print "    [yt-dlp] No thumbnail file written.";
        Print "    [yt-dlp] ERROR: unable to download video data" ]
  ∧ loud.1 = Ok false
  ∧ console loud.2
    = [ Inherited "" "ERROR: unable to download video data";
        Print "    [yt-dlp] No thumbnail file written." ].
Proof. vm_compute. done. Qed.



(** C9 as stated fails: a fetch that failed and left no asset is made
    again by the second scan, twice in total for the one candidate file. *)
Lemma failed_fetch_is_repeated :
  let h := fake_host false 1 None in
  let r1 := scan_directory h "/v" false false true false (start one_fs) in
  let r2 := scan_directory h "/v" false false true false (r1.2) in
  video_files one_fs "/v" false = [ "/v/a-dQw4w9WgXcQ.mp4" ]
  ∧ r1.1 = Ok tt ∧ r2.1 = Ok tt
  ∧ launched r2.2
    = [ yt_command "/tmp/tmpthumb" "dQw4w9WgXcQ";
        yt_command "/tmp/tmpthumb" "dQw4w9WgXcQ" ].
Proof. vm_compute. done. Qed.

(** ** The theorems at concrete inputs *)

Lemma extract_bracketed_leftmost_witness :
  ∃ pre1 tok1 post1 : string,
    PathLib.stem "a-ccccccccccc [dQw4w9WgXcQ] [bbbbbbbbbbb].mp4"
    = pre1 +:+ "[" +:+ tok1 +:+ "]" +:+ post1
    ∧ is_id tok1 = true
    ∧ (∀ pre2 tok2 post2 : string,
         PathLib.stem "a-ccccccccccc [dQw4w9WgXcQ] [bbbbbbbbbbb].mp4"
         = pre2 +:+ "[" +:+ tok2 +:+ "]" +:+ post2 →
         is_id tok2 = true → String.length pre1 ≤ String.length pre2)
    ∧ extract_youtube_id "a-ccccccccccc [dQw4w9WgXcQ] [bbbbbbbbbbb].mp4"
      = Some tok1.
Proof.
  apply (extract_bracketed_leftmost
           "a-ccccccccccc [dQw4w9WgXcQ] [bbbbbbbbbbb].mp4"
           "a-ccccccccccc [dQw4w9WgXcQ] " "bbbbbbbbbbb" "");
    vm_compute; reflexivity.
Defined.

Lemma extract_trailing_iff_witness :
  no_bracketed (PathLib.stem "my-video-dQw4w9WgXcQ.mkv")
  ∧ (extract_youtube_id "my-video-dQw4w9WgXcQ.mkv"
     = Some (last11 (PathLib.stem "my-video-dQw4w9WgXcQ.mkv"))
     ↔ trailing_id (PathLib.stem "my-video-dQw4w9WgXcQ.mkv")).
Proof.
  assert (H : no_bracketed (PathLib.stem "my-video-dQw4w9WgXcQ.mkv")).
  { apply no_bracketed_intro. vm_compute. reflexivity. }
  split; [exact H|].
  exact (proj1 (extract_trailing_iff "my-video-dQw4w9WgXcQ.mkv" H)).
Defined.

Lemma extract_total_not_found_witness :
  extract_youtube_id "vacation_clip.mp4" = None.
Proof.
  apply (proj1 (proj2 (extract_total_not_found "vacation_clip.mp4"))).
  split; vm_compute; reflexivity.
Defined.

Lemma dotfile_never_candidate_witness :
  PathLib.suffix "/v/.mp4" = ""
  ∧ is_video_file demo_fs "/v/.mp4" = false
  ∧ ∀ directory recursive, "/v/.mp4" ∉ video_files demo_fs directory recursive.
Proof.
  apply (dotfile_never_candidate demo_fs "/v/.mp4" ".mp4").
  - apply (bool_decide_unpack (lower ".mp4" ∈ VIDEO_EXTENSIONS)).
    vm_compute. exact I.
  - vm_compute. reflexivity.
Defined.

Lemma failed_fetch_destination_witness :
  let host := fake_host true 1 (Some "partial") in
  let dest := "/v/a-dQw4w9WgXcQ-poster.jpg" in
  let w' := (download_thumbnail host "dQw4w9WgXcQ" dest false (start one_fs)).2 in
  outside (mkdtemp host (fs (start one_fs))) dest
  ∧ download_thumbnail host "dQw4w9WgXcQ" dest false (start one_fs)
    = (Ok false, w')
  ∧ ∃ y, exit_code y ≠ 0%Z ∧ fs w' !! dest = fs_after y !! dest.
Proof.
  intros host dest w'.
  assert (Hout : outside (mkdtemp host (fs (start one_fs))) dest).
  { split; [done | vm_compute; reflexivity]. }
  assert (Hrun : download_thumbnail host "dQw4w9WgXcQ" dest false (start one_fs)
                 = (Ok false, w')).
  { vm_compute. reflexivity. }
  split; [exact Hout|]. split; [exact Hrun|].
  destruct (failed_fetch_destination host "dQw4w9WgXcQ" dest false
              (start one_fs) w' Hout Hrun)
    as [(x & Hx & Ht & _)|(x & thumb & rest & y & _ & _ & _ & Hc & _ & Hfs)].
  - exfalso. vm_compute in Hx. injection Hx as <-. vm_compute in Ht.
    discriminate Ht.
  - exists y. split; [exact Hc | exact Hfs].
Defined.

Lemma failed_fetch_console_witness :
  let host := fake_host false 1 None in
  let dest := "/v/a-dQw4w9WgXcQ-poster.jpg" in
  let w' := (download_thumbnail host "dQw4w9WgXcQ" dest false (start one_fs)).2 in
  download_thumbnail host "dQw4w9WgXcQ" dest false (start one_fs) = (Ok false, w')
  ∧ ∃ x, console w'
         = console (start one_fs)
           ++ (Print <$> ("    [yt-dlp] No thumbnail file written."
                          :: yt_diagnostics (err_text x))).
Proof.
  intros host dest w'.
  assert (Hrun : download_thumbnail host "dQw4w9WgXcQ" dest false (start one_fs)
                 = (Ok false, w')).
  { vm_compute. reflexivity. }
  split; [exact Hrun|].
  destruct (failed_fetch_console host "dQw4w9WgXcQ" dest false
              (start one_fs) w' Hrun)
    as [(x & _ & _ & Hc)|(x & thumb & rest & y & Hx & Ht & _)].
  - exists x. exact Hc.
  - exfalso. vm_compute in Hx. injection Hx as <-. vm_compute in Ht.
    discriminate Ht.
Defined.



Lemma dry_run_never_fetches_witness :
  ∃ w', scan_directory bare_host "/v" true true false false (start demo_fs)
        = (Ok tt, w')
        ∧ launched w' = [] ∧ fs w' = demo_fs.
Proof.
  exact (dry_run_never_fetches bare_host "/v" true false false (start demo_fs)).
Defined.

Lemma existing_asset_is_skipped_witness :
  let h := fake_host true 0 (Some "jpeg") in
  let w := (scan_directory h "/v" true false true false (start demo_fs)).2 in
  path_exists (fs w) (poster_of "/v/a-dQw4w9WgXcQ.mp4") = true
  ∧ ∃ w', scan_file h false true false "/v/a-dQw4w9WgXcQ.mp4" (mkCounts 0 0 0) w
          = (Ok (mkCounts 0 1 0), w')
          ∧ launched w' = launched w ∧ fs w' = fs w.
Proof.
  intros h w.
  assert (Hex : path_exists (fs w) (poster_of "/v/a-dQw4w9WgXcQ.mp4") = true).
  { vm_compute. reflexivity. }
  split; [exact Hex|].
  exact (proj1 (existing_asset_is_skipped h false false)
           "/v/a-dQw4w9WgXcQ.mp4" (mkCounts 0 0 0) w Hex).
Defined.

(** * Further properties of the program *)

(** ** The extractor *)

(** X1. Whatever the extractor returns is an identifier (11 characters
    of the class) and stands in the stem of the file name. *)
Theorem extracted_id_in_stem (filename id : string) :
  extract_youtube_id filename = Some id →
  is_id id = true
  ∧ ∃ pre post : string, PathLib.stem filename = pre +:+ id +:+ post.
Proof.
  intros H. split; [by eapply extract_is_id|].
  revert H. unfold extract_youtube_id, search.
  set (st := PathLib.stem filename).
  destruct (search_chars _BRACKETED_RE (chars st)) as [m|] eqn:E.
  - destruct (search_bracketed_spec _ _ E) as (k & Hk & _ & Hsp).
    destruct (bracketed_at_elim _ _ Hk) as (Hdec & _ & _).
    rewrite (group1_span _ _ _ _ Hsp).
    replace (k + 12 - S k) with 11 by lia. intros [= <-].
    exists (str (take k (chars st) ++ ["["%char])),
      (str ("]"%char :: drop (k + 13) (chars st))).
    apply chars_inj. rewrite !chars_app, !chars_str, <- app_assoc. exact Hdec.
  - destruct (search_chars _TRAILING_RE (chars st)) as [m|] eqn:E2; [|done].
    destruct (search_trailing_group st m E2) as (j & -> & _ & _).
    intros [= <-].
    exists (str (take j (chars st))), (str (drop 11 (drop j (chars st)))).
    apply chars_inj. by rewrite !chars_app, !chars_str, !take_drop.
Qed.

Lemma extracted_id_in_stem_witness :
  is_id "dQw4w9WgXcQ" = true
  ∧ ∃ pre post : string,
      PathLib.stem "my-video-dQw4w9WgXcQ.mkv" = pre +:+ "dQw4w9WgXcQ" +:+ post.
Proof.
  apply (extracted_id_in_stem "my-video-dQw4w9WgXcQ.mkv" "dQw4w9WgXcQ").
  vm_compute. reflexivity.
Defined.

(** ** Path components *)

Lemma split_on_nonempty sep l : split_on sep l ≠ [].
Proof.
  destruct l as [|c l]; cbn; [done|].
  destruct (bool_decide (c = sep)); [done|]. by destruct (split_on sep l).
Qed.

Lemma split_on_no_sep sep l : sep ∉ l → split_on sep l = [l].
Proof.
  induction l as [|c l IH]; intros H; [done|]. cbn.
  rewrite bool_decide_eq_false_2.
  - rewrite IH; [done|]. intros Hin. apply H. by right.
  - intros ->. apply H. by left.
Qed.

Lemma split_on_app sep a b :
  split_on sep (a ++ sep :: b) = split_on sep a ++ split_on sep b.
Proof.
  induction a as [|c a IH]; cbn.
  - by rewrite bool_decide_eq_true_2.
  - destruct (bool_decide (c = sep)); [by rewrite IH|].
    rewrite IH. pose proof (split_on_nonempty sep a).
    by destruct (split_on sep a).
Qed.

Lemma split_on_elem_no_sep sep l x : x ∈ split_on sep l → sep ∉ x.
Proof.
  revert x. induction l as [|c l IH]; intros x; cbn.
  - intros ->%list_elem_of_singleton. by apply not_elem_of_nil.
  - destruct (decide (c = sep)) as [->|Hne].
    + rewrite bool_decide_eq_true_2 by done.
      intros [->|H]%elem_of_cons; [by apply not_elem_of_nil | by apply IH].
    + rewrite bool_decide_eq_false_2 by done.
      pose proof (split_on_nonempty sep l) as Hn.
      destruct (split_on sep l) as [|h t] eqn:E; [done|].
      intros [->|H]%elem_of_cons.
      * intros [?|Hin]%elem_of_cons; [done|]. revert Hin. apply IH. by left.
      * apply IH. by right.
Qed.

(** The name of a path is a component, unless the path has none. *)
Lemma name_chars_component l :
  PathLib.name_chars l = [] ∨ component (PathLib.name_chars l).
Proof.
  unfold PathLib.name_chars, PathLib.tail_parts.
  destruct (last (filter _ (split_on "/" l))) as [x|] eqn:E; [|by left].
  right. cbn. apply last_Some_elem_of in E.
  apply list_elem_of_filter in E as [[H1 H2] H3].
  split; [done|]. split; [done|]. by eapply split_on_elem_no_sep.
Qed.

Lemma name_chars_of_component x : component x → PathLib.name_chars x = x.
Proof.
  intros (H1 & H2 & H3). unfold PathLib.name_chars, PathLib.tail_parts.
  rewrite split_on_no_sep by done.
  rewrite filter_cons_True by done. done.
Qed.

Lemma name_chars_after_slash a x :
  component x → PathLib.name_chars (a ++ "/"%char :: x) = x.
Proof.
  intros (H1 & H2 & H3). unfold PathLib.name_chars, PathLib.tail_parts.
  rewrite split_on_app, (split_on_no_sep _ x) by done.
  rewrite filter_app, filter_cons_True by done.
  by rewrite filter_nil, last_snoc.
Qed.

Lemma name_chars_idemp l :
  PathLib.name_chars (PathLib.name_chars l) = PathLib.name_chars l.
Proof.
  destruct (name_chars_component l) as [->|H]; [done|].
  by apply name_chars_of_component.
Qed.

(** X2. Only the last component of a path counts for the extractor: an
    identifier in the name of a directory is never picked up. *)
Theorem extract_uses_name_only (p : string) :
  extract_youtube_id p = extract_youtube_id (PathLib.name p).
Proof.
  unfold extract_youtube_id.
  assert (H : PathLib.stem (PathLib.name p) = PathLib.stem p).
  { unfold PathLib.stem, PathLib.name. by rewrite chars_str, name_chars_idemp. }
  by rewrite H.
Qed.

(** X14. A file name whose stem has fewer than 11 characters holds no
    identifier: the extractor returns the not-found value (the empty name
    included). *)
Theorem short_stem_not_found (filename : string) :
  String.length (PathLib.stem filename) < 11 →
  extract_youtube_id filename = None.
Proof.
  intros Hlen. rewrite <- chars_length in Hlen.
  unfold extract_youtube_id, search.
  set (st := PathLib.stem filename) in *.
  destruct (search_chars _BRACKETED_RE (chars st)) as [m|] eqn:E.
  - exfalso. destruct (search_bracketed_spec _ _ E) as (k & Hk & _ & _).
    destruct (bracketed_at_elim _ _ Hk) as (Hdec & Hid & _).
    unfold is_id_chars in Hid. apply andb_prop in Hid as [Hl _].
    apply bool_decide_eq_true in Hl.
    apply (f_equal length) in Hdec.
    rewrite length_app in Hdec. cbn [length] in Hdec.
    rewrite length_app, Hl in Hdec. lia.
  - destruct (search_chars _TRAILING_RE (chars st)) as [m|] eqn:E2; [|done].
    exfalso. destruct (search_trailing_group st m E2) as (j & _ & Hfrom & _).
    destruct (trailing_from_elim _ _ Hfrom) as (Hl & _). lia.
Qed.

Lemma short_stem_not_found_witness : extract_youtube_id "clip.mp4" = None.
Proof. apply short_stem_not_found. vm_compute. lia. Defined.

Lemma rfind_app c a b :
  (0 ≤ rfind c b)%Z → rfind c (a ++ b) = (Z.of_nat (length a) + rfind c b)%Z.
Proof.
  intros Hb. induction a as [|x a IH]; [cbn; lia|].
  cbn [app rfind length]. rewrite IH.
  destruct (0 <=? Z.of_nat (length a) + rfind c b)%Z eqn:E; lia.
Qed.

Lemma stem_chars_no_slash l :
  "/"%char ∉ PathLib.stem_chars (PathLib.name_chars l).
Proof.
  assert (H : "/"%char ∉ PathLib.name_chars l).
  { destruct (name_chars_component l) as [->|(_ & _ & H)];
      [apply not_elem_of_nil | done]. }
  unfold PathLib.stem_chars. destruct (PathLib.has_suffix _); [|done].
  intros Hin. apply H. apply elem_of_take in Hin as (i & Hi & _).
  by eapply list_elem_of_lookup_2.
Qed.

Lemma poster_name_component l :
  component (PathLib.stem_chars (PathLib.name_chars l) ++ chars "-poster.jpg").
Proof.
  split; [|split].
  - intros H. apply (f_equal length) in H. rewrite length_app in H. cbn in H. lia.
  - intros H. apply (f_equal length) in H. rewrite length_app in H. cbn in H. lia.
  - intros [H|H]%elem_of_app; [by eapply stem_chars_no_slash|].
    revert H. apply (bool_decide_unpack ("/"%char ∉ chars "-poster.jpg")).
    vm_compute. exact I.
Qed.

Lemma name_joinpath (a b : string) :
  component (chars b) → PathLib.name (PathLib.joinpath a b) = b.
Proof.
  intros Hb. unfold PathLib.name, PathLib.joinpath.
  destruct (decide (a = "")) as [->|Ha].
  - cbn [bool_decide decide_rel orb]. rewrite bool_decide_eq_true_2 by done.
    cbn [orb]. change ("" +:+ b) with b.
    by rewrite name_chars_of_component, str_chars.
  - rewrite (bool_decide_eq_false_2 (a = "")) by done. cbn [orb].
    unfold PathLib.ends_with_slash.
    destruct (decide (last (chars a) = Some "/"%char)) as [Hl|Hl].
    + rewrite bool_decide_eq_true_2 by done.
      apply last_Some in Hl as [a' Ha'].
      rewrite chars_app, Ha', <- app_assoc. cbn [app].
      by rewrite name_chars_after_slash, str_chars.
    + rewrite bool_decide_eq_false_2 by done.
      rewrite !chars_app. change (chars "/" ++ chars b) with ("/"%char :: chars b).
      by rewrite name_chars_after_slash, str_chars.
Qed.

Lemma poster_name (video_file : string) :
  PathLib.name (poster_of video_file)
  = PathLib.stem video_file +:+ "-poster.jpg".
Proof.
  unfold poster_of. apply name_joinpath.
  rewrite chars_app. unfold PathLib.stem. rewrite chars_str.
  apply poster_name_component.
Qed.

Lemma poster_suffix (video_file : string) :
  PathLib.suffix (poster_of video_file) = ".jpg".
Proof.
  pose proof (poster_name video_file) as Hn.
  apply (f_equal chars) in Hn. unfold PathLib.name in Hn.
  rewrite chars_str, chars_app in Hn.
  unfold PathLib.suffix, PathLib.suffix_chars, PathLib.has_suffix. rewrite Hn.
  set (st := chars (PathLib.stem video_file)).
  rewrite (rfind_app "." st (chars "-poster.jpg")) by (vm_compute; discriminate).
  change (rfind "." (chars "-poster.jpg")) with 7%Z.
  rewrite length_app. change (length (chars "-poster.jpg")) with 11.
  replace ((0 <? Z.of_nat (length st) + 7)%Z) with true
    by (symmetry; apply Z.ltb_lt; lia).
  replace ((Z.of_nat (length st) + 7 <? Z.of_nat (length st + 11) - 1)%Z)
    with true by (symmetry; apply Z.ltb_lt; lia).
  cbn [andb].
  replace (Z.to_nat (Z.of_nat (length st) + 7)) with (length st + 7) by lia.
  by rewrite drop_app_add.
Qed.

Lemma poster_not_video (f : gmap string node) (video_file : string) :
  is_video_file f (poster_of video_file) = false.
Proof.
  unfold is_video_file. rewrite poster_suffix.
  by rewrite andb_false_r.
Qed.

(** Which paths a scan takes as candidate files. *)
Lemma video_files_elem (f : gmap string node) directory recursive p :
  p ∈ video_files f directory recursive
  ↔ is_video_file f p = true ∧ in_scope directory recursive p = true.
Proof.
  unfold video_files, PathLib.sorted. rewrite merge_sort_Permutation.
  rewrite list_elem_of_filter.
  assert (Hkey : is_video_file f p = true → p ∈ (map_to_list f).*1).
  { unfold is_video_file, is_file. intros H.
    destruct (f !! p) as [n|] eqn:E; [|done].
    apply list_elem_of_fmap. exists (p, n). split; [done|].
    by apply elem_of_map_to_list. }
  unfold glob, iterdir, in_scope. destruct recursive.
  - rewrite (bool_decide_eq_false_2 ("**/*" = "*")) by done.
    rewrite bool_decide_eq_true_2 by done.
    rewrite list_elem_of_filter.
    split; [tauto | intros [? ?]; repeat split; auto].
  - rewrite bool_decide_eq_true_2 by done.
    rewrite list_elem_of_filter.
    split; [tauto | intros [? ?]; repeat split; auto].
Qed.

(** X3. The asset of a video file is [<stem>-poster.jpg]; its suffix
    is [.jpg], so it is never a candidate file of any scan, and it is never
    the video file it belongs to. *)
Theorem poster_never_candidate (f : gmap string node) (video_file : string) :
  PathLib.name (poster_of video_file)
  = PathLib.stem video_file +:+ "-poster.jpg"
  ∧ PathLib.suffix (poster_of video_file) = ".jpg"
  ∧ (∀ directory recursive,
       poster_of video_file ∉ video_files f directory recursive)
  ∧ (is_video_file f video_file = true → poster_of video_file ≠ video_file).
Proof.
  split; [apply poster_name|]. split; [apply poster_suffix|]. split.
  - intros directory recursive [H _]%video_files_elem.
    by rewrite poster_not_video in H.
  - intros Hv Heq. rewrite <- Heq in Hv. by rewrite poster_not_video in Hv.
Qed.

(** ** The order of the candidate files *)

Lemma code_inj x y : code x = code y → x = y.
Proof.
  unfold code. intros H.
  by rewrite <- (ascii_N_embedding x), <- (ascii_N_embedding y), H.
Qed.

Lemma chars_leb_total a b :
  PathLib.chars_leb a b = true ∨ PathLib.chars_leb b a = true.
Proof.
  revert b. induction a as [|x a IH]; intros [|y b]; cbn; auto.
  destruct (N.ltb_spec (code x) (code y)), (N.ltb_spec (code y) (code x));
    auto; lia.
Qed.

Lemma chars_leb_antisym a b :
  PathLib.chars_leb a b = true → PathLib.chars_leb b a = true → a = b.
Proof.
  revert b. induction a as [|x a IH]; intros [|y b]; cbn; try done.
  destruct (N.ltb_spec (code x) (code y)), (N.ltb_spec (code y) (code x));
    try done; try lia.
  intros H1 H2. f_equal; [apply code_inj; lia | by apply IH].
Qed.

Lemma chars_leb_trans a b c :
  PathLib.chars_leb a b = true → PathLib.chars_leb b c = true →
  PathLib.chars_leb a c = true.
Proof.
  revert b c. induction a as [|x a IH]; intros [|y b] [|z c]; cbn; try done.
  destruct (N.ltb_spec (code x) (code y)), (N.ltb_spec (code y) (code x)),
    (N.ltb_spec (code y) (code z)), (N.ltb_spec (code z) (code y)),
    (N.ltb_spec (code x) (code z)), (N.ltb_spec (code z) (code x));
    try done; try lia.
  apply IH.
Qed.

Lemma parts_leb_total a b :
  PathLib.parts_leb a b = true ∨ PathLib.parts_leb b a = true.
Proof.
  revert b. induction a as [|x a IH]; intros [|y b]; cbn; auto.
  destruct (decide (x = y)) as [->|Hne].
  - rewrite !bool_decide_eq_true_2 by done. apply IH.
  - rewrite !bool_decide_eq_false_2 by done. apply chars_leb_total.
Qed.

Lemma parts_leb_trans a b c :
  PathLib.parts_leb a b = true → PathLib.parts_leb b c = true →
  PathLib.parts_leb a c = true.
Proof.
  revert b c. induction a as [|x a IH]; intros [|y b] [|z c]; cbn; try done.
  intros H1 H2. repeat case_bool_decide; simplify_eq;
    eauto using chars_leb_trans.
  exfalso. eauto using chars_leb_antisym.
Qed.

#[local] Instance path_le_total : Total PathLib.path_le.
Proof. intros a b. apply parts_leb_total. Qed.

#[local] Instance path_le_trans : Transitive PathLib.path_le.
Proof. intros a b c. apply parts_leb_trans. Qed.

(** X4. The candidate files come in the order of [sorted]: each path
    is below or equal to every later one, component by component, and no
    path comes twice. *)
Theorem candidates_sorted_nodup (f : gmap string node) directory recursive :
  StronglySorted PathLib.path_le (video_files f directory recursive)
  ∧ NoDup (video_files f directory recursive).
Proof.
  unfold video_files, PathLib.sorted. split.
  - apply StronglySorted_merge_sort; apply _.
  - rewrite merge_sort_Permutation. apply NoDup_filter.
    unfold glob, iterdir.
    repeat case_bool_decide; try apply NoDup_filter;
      try apply NoDup_fst_map_to_list. apply NoDup_nil_2.
Qed.

(** ** Which files are candidates *)

Lemma strip_prefix_Some pre l rest :
  PathLib.strip_prefix pre l = Some rest ↔ l = pre ++ rest.
Proof.
  revert l. induction pre as [|c pre IH]; intros l; cbn.
  - split; [by intros [= ->] | by intros ->].
  - destruct l as [|x l]; [done|]. case_bool_decide; subst.
    + rewrite IH. split; [by intros -> | by intros [= ->]].
    + split; [done | by intros [= ? ?]].
Qed.

Lemma relative_to_Some directory p rest :
  PathLib.relative_to directory p = Some rest
  ↔ chars p = chars (PathLib.joinpath directory "") ++ rest ∧ rest ≠ [].
Proof.
  unfold PathLib.relative_to.
  destruct (PathLib.strip_prefix _ (chars p)) as [r|] eqn:E.
  - apply strip_prefix_Some in E. destruct r as [|c r].
    + split; [done|]. intros [H Hne]. rewrite E in H.
      apply app_inv_head in H. by subst.
    + split.
      * intros [= <-]. done.
      * intros [H _]. rewrite E in H. apply app_inv_head in H. by subst.
  - split; [done|]. intros [H _]. apply strip_prefix_Some in H. congruence.
Qed.

Lemma is_child_below directory p :
  PathLib.is_child directory p = true → PathLib.is_below directory p = true.
Proof.
  unfold PathLib.is_child, PathLib.is_below.
  destruct (PathLib.relative_to directory p); [|done].
  intros _. by apply bool_decide_eq_true.
Qed.

(** X5. The candidate files of a scan are exactly the regular files
    (never directories) whose suffix, in lower case, is a video extension and
    which lie in the scanned directory: directly in it for a plain scan, at
    any depth for a recursive one.  So a plain scan never yields a file of a
    subdirectory, and a recursive scan yields all that a plain scan yields. *)
Theorem candidates_exactly (f : gmap string node) directory p :
  (∀ recursive,
     p ∈ video_files f directory recursive
     ↔ (∃ content, f !! p = Some (File content))
       ∧ lower (PathLib.suffix p) ∈ VIDEO_EXTENSIONS
       ∧ in_scope directory recursive p = true)
  ∧ (p ∈ video_files f directory false
     ↔ p ∈ video_files f directory true
       ∧ ∃ name, chars p = chars (PathLib.joinpath directory "") ++ name
                 ∧ name ≠ [] ∧ "/"%char ∉ name)
  ∧ (p ∈ video_files f directory true →
     ∃ rest, chars p = chars (PathLib.joinpath directory "") ++ rest
             ∧ rest ≠ []).
Proof.
  assert (Hvid : is_video_file f p = true
    ↔ (∃ content, f !! p = Some (File content))
      ∧ lower (PathLib.suffix p) ∈ VIDEO_EXTENSIONS).
  { unfold is_video_file, is_file. rewrite andb_true_iff, bool_decide_eq_true.
    destruct (f !! p) as [[c|]|]; split; try (intros [? ?]; done);
      try (intros [[? ?] ?]; done).
    intros [_ ?]. split; [by eexists | done]. }
  split; [|split].
  - intros recursive. rewrite video_files_elem, Hvid. tauto.
  - rewrite !video_files_elem. unfold in_scope, PathLib.is_child.
    split.
    + intros [Hv Hc]. split.
      { split; [done|]. by apply is_child_below. }
      destruct (PathLib.relative_to directory p) as [rest|] eqn:E; [|done].
      apply relative_to_Some in E as [E1 E2].
      apply bool_decide_eq_true in Hc. by exists rest.
    + intros [[Hv _] (name & Hp & Hne & Hs)]. split; [done|].
      rewrite (proj2 (relative_to_Some directory p name)) by done.
      by apply bool_decide_eq_true.
  - intros [_ Hb]%video_files_elem. unfold in_scope, PathLib.is_below in Hb.
    apply bool_decide_eq_true in Hb as [rest Hr].
    apply relative_to_Some in Hr. by exists rest.
Qed.

(** X6. Writing an asset changes nothing about which files are
    candidates: with any node put at the poster path of any file, every scan
    has the same candidate files as before. *)
Theorem candidates_unchanged_by_poster (f : gmap string node)
    (video_file : string) (n : node) directory recursive p :
  p ∈ video_files (<[poster_of video_file := n]> f) directory recursive
  ↔ p ∈ video_files f directory recursive.
Proof.
  rewrite !video_files_elem.
  destruct (decide (p = poster_of video_file)) as [->|Hne].
  - rewrite !poster_not_video. tauto.
  - unfold is_video_file, is_file. by rewrite lookup_insert_ne.
Qed.

Section scanner_more.
Variable host : Host.

(** X7. Where no regular file with a video extension lies in the
    scanned directory, the scan prints the line "No video files found." and
    does nothing else: no summary, no command, no change of a file. *)
Theorem no_candidates_report directory recursive dry_run skip_existing verbose w :
  (∀ p, is_video_file (fs w) p = true →
        in_scope directory recursive p = false) →
  scan_directory host directory recursive dry_run skip_existing verbose w
  = (Ok tt, emit (Print "No video files found.") w).
Proof.
  intros Hnone. rewrite scan_directory_cases.
  destruct (video_files (fs w) directory recursive) as [|p rest] eqn:E; [done|].
  assert (Hin : p ∈ video_files (fs w) directory recursive)
    by (rewrite E; by left).
  apply video_files_elem in Hin as [Hv Hs]. rewrite (Hnone p Hv) in Hs. done.
Qed.

End scanner_more.

Lemma no_candidates_report_witness :
  scan_directory bare_host "/v/sub/empty" true false false false (start demo_fs)
  = (Ok tt, emit (Print "No video files found.") (start demo_fs)).
Proof.
  apply no_candidates_report. intros p Hv.
  destruct (in_scope "/v/sub/empty" true p) eqn:E; [|reflexivity].
  assert (Hin : p ∈ video_files (fs (start demo_fs)) "/v/sub/empty" true)
    by (by apply video_files_elem).
  vm_compute in Hin. by apply elem_of_nil in Hin.
Defined.

(** ** The fetcher *)

Lemma rmtree_inside tmp p (f : gmap string node) :
  p = tmp ∨ PathLib.is_below tmp p = true → rmtree tmp f !! p = None.
Proof.
  intros H. unfold rmtree. apply map_lookup_filter_None. right.
  intros n _ [H1 H2]. cbn in *. destruct H as [->|H]; [done | congruence].
Qed.

Lemma last_n_length {A} n (l : list A) : length (last_n n l) ≤ n.
Proof. unfold last_n. rewrite length_drop. lia. Qed.

Section fetcher_more.
Variable host : Host.


(** X9. When the fetcher is left, by a return or by an exception, the
    temporary directory it used is gone with everything below it. *)
Theorem temporary_directory_removed video_id output_path verbose w p :
  let tmp := mkdtemp host (fs w) in
  p = tmp ∨ PathLib.is_below tmp p = true →
  fs (download_thumbnail host video_id output_path verbose w).2 !! p = None.
Proof.
  intros tmp Hp. rewrite download_thumbnail_cases. unfold fetch_cases. fold tmp.
  destruct (exec host _ (<[tmp:=Dir]> (fs w))) as [e|x];
    [by apply rmtree_inside|].
  destruct (thumbnails (fs_after x) tmp) as [|thumb rest];
    [by apply rmtree_inside|].
  destruct (exec host (ff_command thumb output_path) (fs_after x)) as [e|y];
    [by apply rmtree_inside|].
  case_bool_decide; by apply rmtree_inside.
Qed.

(** X10. One call of the fetcher launches the downloader once, first,
    and the transcoder at most once, after it, only if the downloader left a
    file, on the first such file and with the destination path as given;
    it launches nothing else. *)
Theorem fetch_launches video_id output_path verbose w :
  let tmp := mkdtemp host (fs w) in
  let yt := yt_command tmp video_id in
  let w' := (download_thumbnail host video_id output_path verbose w).2 in
  match exec host yt (<[tmp := Dir]> (fs w)) with
  | CannotStart _ => launched w' = launched w ++ [yt]
  | Runs x =>
      match thumbnails (fs_after x) tmp with
      | [] => launched w' = launched w ++ [yt]
      | thumb :: _ =>
          launched w' = launched w ++ [yt; ff_command thumb output_path]
      end
  end.
Proof.
  intros tmp yt. cbv zeta. rewrite download_thumbnail_cases.
  unfold fetch_cases. fold tmp yt.
  destruct (exec host yt (<[tmp:=Dir]> (fs w))) as [e|x]; [done|].
  destruct (thumbnails (fs_after x) tmp) as [|thumb rest]; [done|].
  destruct (exec host (ff_command thumb output_path) (fs_after x)) as [e|y];
    [done|].
  by case_bool_decide.
Qed.

(** X11. After a transcoder failure without verbose reporting the
    fetcher has printed between one and six lines, each marked as coming
    from the transcoder: its failure line and at most five lines of the
    captured diagnostic text. *)
Theorem quiet_transcode_failure_bounded video_id output_path w w' x :
  let tmp := mkdtemp host (fs w) in
  exec host (yt_command tmp video_id) (<[tmp := Dir]> (fs w)) = Runs x →
  thumbnails (fs_after x) tmp ≠ [] →
  download_thumbnail host video_id output_path false w = (Ok false, w') →
  ∃ lines,
    console w' = console w ++ (Print <$> lines)
    ∧ 1 ≤ length lines ≤ 6
    ∧ ∀ line, line ∈ lines → ∃ text, line = "    [ffmpeg] " +:+ text.
Proof.
  intros tmp Hx Ht. rewrite download_thumbnail_cases. unfold fetch_cases.
  fold tmp. rewrite Hx.
  destruct (thumbnails (fs_after x) tmp) as [|thumb rest]; [done|].
  destruct (exec host (ff_command thumb output_path) (fs_after x)) as [e|y];
    [done|].
  case_bool_decide; [|done]. intros [= <-]. cbn [console passthrough app ff_report].
  eexists (_ :: ff_diagnostics (err_text y)). split; [reflexivity|].
  unfold ff_diagnostics. split.
  - cbn [length]. case_bool_decide; cbn [length]; [|lia].
    rewrite length_fmap.
    pose proof (last_n_length 5 (splitlines (strip (err_text y)))). lia.
  - intros line [->|Hin]%elem_of_cons.
    + by eexists.
    + case_bool_decide; [|by apply elem_of_nil in Hin].
      apply list_elem_of_fmap in Hin as (text & -> & _). by eexists.
Qed.

(** X15. The fetcher never writes the destination itself and its
    clean-up does not reach it: after a successful fetch a destination
    outside the temporary directory holds exactly what the transcoder left
    there. *)
Theorem fetched_asset_as_written video_id output_path verbose w w' :
  let tmp := mkdtemp host (fs w) in
  outside tmp output_path →
  download_thumbnail host video_id output_path verbose w = (Ok true, w') →
  ∃ x thumb rest y,
    exec host (yt_command tmp video_id) (<[tmp := Dir]> (fs w)) = Runs x
    ∧ thumbnails (fs_after x) tmp = thumb :: rest
    ∧ exec host (ff_command thumb output_path) (fs_after x) = Runs y
    ∧ fs w' !! output_path = fs_after y !! output_path.
Proof.
  intros tmp Hout. rewrite download_thumbnail_cases. unfold fetch_cases.
  fold tmp.
  destruct (exec host _ (<[tmp:=Dir]> (fs w))) as [e|x]; [done|].
  destruct (thumbnails (fs_after x) tmp) as [|thumb rest] eqn:Et; [done|].
  destruct (exec host (ff_command thumb output_path) (fs_after x))
    as [e|y] eqn:Ef; [done|].
  case_bool_decide; [done|]. intros [= <-].
  exists x, thumb, rest, y. cbn. by rewrite rmtree_outside.
Qed.

End fetcher_more.

Lemma quiet_transcode_failure_bounded_witness :
  let host := fake_host true 1 (Some "partial") in
  let w' := (download_thumbnail host "dQw4w9WgXcQ" "/v/a-dQw4w9WgXcQ-poster.jpg"
               false (start one_fs)).2 in
  ∃ lines,
    console w' = console (start one_fs) ++ (Print <$> lines)
    ∧ 1 ≤ length lines ≤ 6
    ∧ ∀ line, line ∈ lines → ∃ text, line = "    [ffmpeg] " +:+ text.
Proof.
  intros host w'.
  eapply (quiet_transcode_failure_bounded host "dQw4w9WgXcQ"
            "/v/a-dQw4w9WgXcQ-poster.jpg" (start one_fs) w').
  - vm_compute. reflexivity.
  - vm_compute. discriminate.
  - vm_compute. reflexivity.
Defined.

Lemma temporary_directory_removed_witness :
  fs (download_thumbnail (fake_host true 0 (Some "jpeg")) "dQw4w9WgXcQ"
        "/v/a-dQw4w9WgXcQ-poster.jpg" false (start one_fs)).2
  !! "/tmp/tmpthumb/thumb.webp" = None.
Proof.
  apply (temporary_directory_removed (fake_host true 0 (Some "jpeg"))).
  right. vm_compute. reflexivity.
Defined.

Lemma fetched_asset_as_written_witness :
  let host := fake_host true 0 (Some "jpeg") in
  let dest := "/v/a-dQw4w9WgXcQ-poster.jpg" in
  let w' := (download_thumbnail host "dQw4w9WgXcQ" dest false (start one_fs)).2 in
  ∃ y, fs w' !! dest = fs_after y !! dest.
Proof.
  intros host dest w'.
  destruct (fetched_asset_as_written host "dQw4w9WgXcQ" dest false
              (start one_fs) w') as (x & thumb & rest & y & _ & _ & _ & H).
  - split; [done | vm_compute; reflexivity].
  - vm_compute. reflexivity.
  - by exists y.
Defined.

(** ** The scanner and the command line *)

Section scanner_calls.
Variable host : Host.

(** X12. For one candidate file the loop body launches a command
    exactly when the name holds an identifier, the file is not skipped
    because its asset exists, and the run is not a dry run; the first command
    is then the downloader for that identifier.  In particular without
    skip-existing an asset that exists does not keep the file from being
    fetched again. *)
Theorem fetcher_called_iff dry_run skip_existing verbose video_file c w :
  let w' := (scan_file host dry_run skip_existing verbose video_file c w).2 in
  (launched w' ≠ launched w
   ↔ ∃ id, extract_youtube_id (PathLib.name video_file) = Some id
           ∧ skip_existing && path_exists (fs w) (poster_of video_file) = false
           ∧ dry_run = false)
  ∧ (∀ id, extract_youtube_id (PathLib.name video_file) = Some id →
           skip_existing && path_exists (fs w) (poster_of video_file) = false →
           dry_run = false →
           ∃ rest, launched w'
                   = launched w ++ yt_command (mkdtemp host (fs w)) id :: rest).
Proof.
  cbv zeta. rewrite scan_file_cases.
  destruct (extract_youtube_id (PathLib.name video_file)) as [id|].
  2:{ split; [|done]. split; [done|]. by intros (id & ? & _). }
  destruct (skip_existing && path_exists (fs w) (poster_of video_file)).
  { split; [|done]. split; [done|]. by intros (? & _ & ? & _). }
  destruct dry_run.
  { split; [|done]. split; [done|]. by intros (? & _ & _ & ?). }
  destruct (download_thumbnail_launches host id (poster_of video_file) verbose
              (announced video_file id w)) as [rest Hl].
  cbn [announced emits fs launched] in Hl.
  assert (Hw : ∃ rest', launched
      (match download_thumbnail host id (poster_of video_file) verbose
               (announced video_file id w) with
       | (Ok true, w1) =>
           (Ok (bump Succeeded c),
            emits [Print "        Status : OK"; Print ""] w1)
       | (Ok false, w1) =>
           (Ok (bump Failed c),
            emits [Print "        Status : FAILED"; Print ""] w1)
       | (Raise e, w1) => (Raise e, w1)
       end).2 = launched w ++ yt_command (mkdtemp host (fs w)) id :: rest').
  { exists rest. rewrite <- Hl.
    by destruct (download_thumbnail host id (poster_of video_file) verbose
                   (announced video_file id w)) as [[[]|e] w1]. }
  destruct Hw as [rest' Hw]. split.
  - split; [by eauto|]. intros _. rewrite Hw. intros H.
    apply (f_equal length) in H. rewrite length_app in H. cbn in H. lia.
  - intros id' [= <-] _ _. by exists rest'.
Qed.


End scanner_calls.


Lemma fetcher_called_iff_witness :
  ∃ rest,
    launched (scan_file (fake_host true 0 (Some "jpeg")) false false false
                "/v/a-dQw4w9WgXcQ.mp4" (mkCounts 0 0 0)
                (start (<["/v/a-dQw4w9WgXcQ-poster.jpg" := File "old"]> one_fs))).2
    = [] ++ yt_command "/tmp/tmpthumb" "dQw4w9WgXcQ" :: rest.
Proof.
  apply (proj2 (fetcher_called_iff (fake_host true 0 (Some "jpeg"))
                  false false false "/v/a-dQw4w9WgXcQ.mp4" (mkCounts 0 0 0)
                  (start (<["/v/a-dQw4w9WgXcQ-poster.jpg" := File "old"]> one_fs)))
           "dQw4w9WgXcQ"); vm_compute; reflexivity.
Defined.
